(** * DQMStreamerReader: lumisection file rotation, end of stream and skip

    A shallow embedding of [IOPool/DQMStreamer/plugins/DQMStreamerReader.cc].
    The member functions of [edm::DQMStreamerReader] are written as
    computations over an explicit system state: the data members of the
    reader, the run directory it tails, and a trace of the side effects it
    performs (opens, closes, unlinks, reads, log messages, sleeps).

    The [for (;;)] loops of the source are unrolled under a bound on the
    number of iterations; a computation that exhausts the bound yields
    [OutOfFuel], which stands for "still looping".

    The muon selection and the histogram filling of
    [GeneratorInterface/PomwigInterface/test/Z2muAnalyzer.cc] are embedded
    in the module [Z2muAnalyzer]. *)

From stdpp Require Import base decidable option list gmap strings pretty.
From Stdlib Require Import ZArith Lia.

Open Scope Z_scope.

(** ** Messages and files *)

(** [EventMsgView]: the three identifiers read by [skip] through
    [run()], [lumi()] and [event()]. *)
Record EventMsgView := mkEvent {
  run : N;
  lumi : N;
  event : N
}.

(** [InitMsgView]: of a start message only [code()] is inspected. *)
Record InitMsgView := mkInit {
  code : N
}.

(** A streamer file on disk: its first record, then its event records. *)
Record DatFile := mkDat {
  dat_start : InitMsgView;
  dat_events : list EventMsgView
}.

(** Modelled from the spec: [StreamerInputFile] (IOPool/Streamer) is not
    part of the sources at hand.  An open file yields the start message
    that was read when it was opened ([startMessage]), then successive
    event records until exhaustion ([next], [currentRecord]); [newHeader]
    reports and clears a flag that is unset for a freshly opened single
    file.  The handle keeps the records of the file it was opened on, also
    after the file name has been unlinked.  It hands out every event
    record: the skip predicate given to its constructor is consulted by
    [skip] only. *)
Record StreamerInputFile := mkSIF {
  currentFileName_ : string;
  startMsg_ : InitMsgView;
  unread_ : list EventMsgView;
  currentEvMsg_ : option EventMsgView;
  newHeader_ : bool
}.

(** ** The run directory *)

(** Modelled from the spec: [DQMFileIterator::LumiEntry] is declared in a
    header that is not part of the sources at hand.  An entry carries its
    lumisection number and names its data file. *)
Record LumiEntry := mkLumi {
  ls : N;
  datafilename : string
}.

(** Modelled from the spec: [DQMFileIterator::State].  The source tests
    both [state() != State::OPEN] and [state() == State::EOR], so the
    enumeration is kept open to an intermediate value between the two. *)
Inductive State := OPEN | EOR_CLOSING | EOR.

#[global] Instance State_eq_dec : EqDecision State.
Proof. solve_decision. Defined.

(** What one scan of the run directory discovers: index entries that
    appeared since the previous scan, data files that were written since,
    and how far the end-of-run protocol has got. *)
Record PollStep := mkPoll {
  arriving : list LumiEntry;
  written : list (string * DatFile);
  marker : State
}.

(** Modelled from the spec: [DQMFileIterator], an ordered queue of
    discovered entries and a run-level state. *)
Record DQMFileIterator := mkIter {
  queue_ : list LumiEntry;
  state_ : State
}.

(** ** Observable effects *)

Inductive Obs :=
| ObsDelay                                     (* delay_: log line and usleep *)
| ObsOpen (p : string)                         (* new StreamerInputFile(p, ..) *)
| ObsClose (p : string)                        (* closeStreamerFile() *)
| ObsUnlink (p : string)                       (* unlink(p) *)
| ObsMissing (p : string)                      (* "Data file ... is missing" *)
| ObsRead (p : string) (e : EventMsgView)      (* next() returned a record *)
| ObsEOF (p : string)                          (* next() returned false *)
| ObsMerge (h : InitMsgView) (subsequent : bool) (* deserializeAndMergeWithRegistry *)
| ObsEvent (e : EventMsgView).                 (* deserializeEvent *)

(** ** System state *)

(** The mutable data members of the reader ([fiterator_], [streamReader_],
    [processedEventPerLs_]), the files currently on disk, the scans of the
    directory still to come, and the effects so far, newest first. *)
Record Sys := mkSys {
  fiterator_ : DQMFileIterator;
  streamReader_ : option StreamerInputFile;
  processedEventPerLs_ : Z;
  disk : gmap string DatFile;
  future : list PollStep;
  trace : list Obs
}.

Definition set_fiterator (it : DQMFileIterator) (s : Sys) : Sys :=
  mkSys it (streamReader_ s) (processedEventPerLs_ s) (disk s) (future s) (trace s).
Definition set_streamReader (r : option StreamerInputFile) (s : Sys) : Sys :=
  mkSys (fiterator_ s) r (processedEventPerLs_ s) (disk s) (future s) (trace s).
Definition set_processedEventPerLs (n : Z) (s : Sys) : Sys :=
  mkSys (fiterator_ s) (streamReader_ s) n (disk s) (future s) (trace s).
Definition set_disk (d : gmap string DatFile) (s : Sys) : Sys :=
  mkSys (fiterator_ s) (streamReader_ s) (processedEventPerLs_ s) d (future s) (trace s).
Definition emit (o : Obs) (s : Sys) : Sys :=
  mkSys (fiterator_ s) (streamReader_ s) (processedEventPerLs_ s) (disk s) (future s)
        (o :: trace s).

(** The members set once by the constructor from the parameter set.
    [eventSkipperByID_] is a possibly null pointer. *)
Record Config := mkConfig {
  runNumber_ : N;
  runInputDir_ : string;
  minEventsPerLs_ : Z;
  flagSkipFirstLumis_ : bool;
  flagEndOfRunKills_ : bool;
  flagDeleteDatFiles_ : bool;
  eventSkipperByID_ : option (N -> N -> N -> bool)
}.

(** ** Exceptions and outcomes *)

Inductive ErrorCode := FileReadError | FileOpenError.

Record Exception := mkException {
  category : ErrorCode;
  context : string;
  message : string
}.

(** The outcome of running a member function: normal return, a C++
    exception leaving the function, undefined behaviour ([front()] of an
    empty queue, a null [streamReader_] dereferenced, signed overflow of
    the [int] counter of [skip]), or the iteration bound exhausted. *)
Inductive Outcome (A : Type) :=
| Done (a : A) (s : Sys)
| Thrown (e : Exception) (s : Sys)
| Undefined
| OutOfFuel.
Arguments Done {A} a s.
Arguments Thrown {A} e s.
Arguments Undefined {A}.
Arguments OutOfFuel {A}.

Definition M (A : Type) : Type := Sys -> Outcome A.

Definition ret {A} (a : A) : M A := fun s => Done a s.

Definition bind {A B} (m : M A) (k : A -> M B) : M B :=
  fun s =>
    match m s with
    | Done a s' => k a s'
    | Thrown e s' => Thrown e s'
    | Undefined => Undefined
    | OutOfFuel => OutOfFuel
    end.

Definition throw {A} (e : Exception) : M A := fun s => Thrown e s.
Definition undefined {A} : M A := fun _ => Undefined.
Definition gets {A} (f : Sys -> A) : M A := fun s => Done (f s) s.
Definition modify (f : Sys -> Sys) : M unit := fun s => Done tt (f s).

Notation "x <- c ;; k" := (bind c (fun x => k))
  (at level 100, c at next level, right associativity).
Notation "c ;; k" := (bind c (fun _ => k))
  (at level 100, right associativity).

(** ** DQMFileIterator *)

Module FileIterator.

(** The run never moves back: OPEN, then EOR_CLOSING, then EOR. *)
Definition later (a b : State) : State :=
  match a, b with
  | EOR, _ | _, EOR => EOR
  | EOR_CLOSING, _ | _, EOR_CLOSING => EOR_CLOSING
  | OPEN, OPEN => OPEN
  end.

Definition write_files (fs : list (string * DatFile)) (d : gmap string DatFile)
  : gmap string DatFile :=
  foldr (fun pf acc => <[pf.1 := pf.2]> acc) d fs.

(** Modelled from the spec: one scan of the run directory.  New entries
    are appended behind those already queued; once the state is EOR no
    further entry ever appears. *)
Definition update_state (s : Sys) : Sys :=
  match state_ (fiterator_ s), future s with
  | EOR, _ => s
  | _, [] => s
  | st, step :: rest =>
      mkSys (mkIter (queue_ (fiterator_ s) ++ arriving step) (later st (marker step)))
            (streamReader_ s) (processedEventPerLs_ s)
            (write_files (written step) (disk s)) rest (trace s)
  end.

(** Modelled from the spec: [initialise(run, dir)] attaches to the
    directory and scans it. *)
Definition initialise (runNumber : N) (runInputDir : string) : M unit :=
  modify (fun s => update_state (set_fiterator (mkIter [] OPEN) s)).

(** Modelled from the spec: [hasNext()] scans the directory, then tells
    whether an entry is queued. *)
Definition hasNext : M bool :=
  fun s => let s' := update_state s in
           Done (negb (bool_decide (queue_ (fiterator_ s') = []))) s'.

Definition state : M State := gets (fun s => state_ (fiterator_ s)).

(** Modelled from the spec: the entry names its data file. *)
Definition make_path_data (l : LumiEntry) : string := datafilename l.

Definition pop : M unit :=
  modify (fun s => set_fiterator
                     (mkIter (tail (queue_ (fiterator_ s))) (state_ (fiterator_ s))) s).

End FileIterator.

(** The counter of [skip] is a C++ [int]. *)
Definition INT_MAX : Z := 2147483647.
Definition INT_MIN : Z := -2147483648.

Definition newline : string := String (Ascii.ascii_of_nat 10) EmptyString.

(** ** DQMStreamerReader *)

Section DQMStreamerReader.

(** [Header::INIT], a message code of MsgTools that is declared outside
    the sources at hand. *)
Variable INIT : N.

Variable cfg : Config.

Definition delay_ : M unit := modify (emit ObsDelay).

Definition closeFile_ : M unit :=
  r <- gets streamReader_ ;;
  match r with
  | Some f =>
      modify (emit (ObsClose (currentFileName_ f))) ;;
      modify (set_streamReader None)
  | None => ret tt
  end.

Definition wrongMessageType (c : N) : Exception :=
  mkException FileReadError "DQMStreamerReader::readHeader"
    ("received wrong message type: expected INIT, got " +:+ pretty c +:+ newline).

Definition getHeaderMsg : M InitMsgView :=
  r <- gets streamReader_ ;;
  match r with
  | None => undefined
  | Some f =>
      let header := startMsg_ f in
      if bool_decide (code header ≠ INIT)
      then throw (wrongMessageType (code header))
      else ret header
  end.

(** Merging a header into the product registry is left to the framework;
    only the call is recorded.  The framework can refuse a header that
    does not fit the registry; that failure is outside this model, in
    which the merge always succeeds. *)
Definition deserializeAndMergeWithRegistry (h : InitMsgView) (subsequent : bool)
  : M unit :=
  modify (emit (ObsMerge h subsequent)).

Definition deserializeEvent (e : EventMsgView) : M unit :=
  modify (emit (ObsEvent e)).

Definition cannotOpen (p : string) : Exception :=
  mkException FileOpenError "StreamerInputFile::openStreamerFile"
    ("Error Opening Streamer Input File: " +:+ p +:+ newline).

(** [new StreamerInputFile(name, eventSkipperByID_)]: opens the file and
    reads its start message. *)
Definition newStreamerInputFile (name : string) : M unit :=
  d <- gets disk ;;
  match d !! name with
  | None => throw (cannotOpen name)
  | Some f =>
      modify (emit (ObsOpen name)) ;;
      modify (set_streamReader
                (Some (mkSIF name (dat_start f) (dat_events f) None false)))
  end.

Definition unlink (p : string) : M unit :=
  modify (emit (ObsUnlink p)) ;;
  modify (fun s => set_disk (delete p (disk s)) s).

Definition openFile_ (newStreamerFile_ : string) : M unit :=
  modify (set_processedEventPerLs 0) ;;
  newStreamerInputFile newStreamerFile_ ;;
  header <- getHeaderMsg ;;
  deserializeAndMergeWithRegistry header false ;;
  modify (set_processedEventPerLs 0) ;;
  if flagDeleteDatFiles_ cfg then unlink newStreamerFile_ else ret tt.

Definition exists_ (p : string) : M bool :=
  gets (fun s => bool_decide (is_Some (disk s !! p))).

(** [lumi] is a reference to the front of the queue; the path is computed
    from it once before and once after [pop()], with the same result. *)
Definition openNextFile_ : M bool :=
  closeFile_ ;;
  q <- gets (fun s => queue_ (fiterator_ s)) ;;
  match q with
  | [] => undefined
  | lumi :: _ =>
      let p := FileIterator.make_path_data lumi in
      FileIterator.pop ;;
      ex <- exists_ p ;;
      if ex then
        openFile_ (FileIterator.make_path_data lumi) ;;
        ret true
      else
        modify (emit (ObsMissing p)) ;;
        ret false
  end.

(** [streamReader_->next()] followed by [currentRecord()]. *)
Definition getEventMsg : M (option EventMsgView) :=
  r <- gets streamReader_ ;;
  match r with
  | None => undefined
  | Some f =>
      match unread_ f with
      | [] =>
          modify (emit (ObsEOF (currentFileName_ f))) ;;
          ret None
      | e :: rest =>
          modify (emit (ObsRead (currentFileName_ f) e)) ;;
          modify (set_streamReader
                    (Some (mkSIF (currentFileName_ f) (startMsg_ f) rest (Some e)
                                 (newHeader_ f)))) ;;
          ret (Some e)
      end
  end.

(** One pass through the body of the [for (;;)] of [prepareNextEvent]:
    [Some v] when the body returns [v] ([Some None] being the null
    pointer), [None] when it reaches a [continue] or the closing brace. *)
Definition prepareNextEvent_body : M (option (option EventMsgView)) :=
  st <- FileIterator.state ;;
  if flagEndOfRunKills_ cfg && bool_decide (st ≠ OPEN) then
    closeFile_ ;; ret (Some None)
  else
    r <- gets streamReader_ ;;
    finished <- (if bool_decide (r = None) then
                   hn <- FileIterator.hasNext ;;
                   if negb hn then
                     st' <- FileIterator.state ;;
                     ret (bool_decide (st' = EOR))
                   else ret false
                 else ret false) ;;
    if (finished : bool) then
      closeFile_ ;; ret (Some None)
    else
      r <- gets streamReader_ ;;
      advanced <- (if bool_decide (r = None) then
                     hn <- FileIterator.hasNext ;;
                     if (hn : bool) then openNextFile_ ;; ret true else ret false
                   else ret false) ;;
      if (advanced : bool) then ret None
      else
        hn <- FileIterator.hasNext ;;
        n <- gets processedEventPerLs_ ;;
        if hn && (minEventsPerLs_ cfg <? n) then
          openNextFile_ ;; ret None
        else
          r <- gets streamReader_ ;;
          match r with
          | None => delay_ ;; ret None
          | Some _ =>
              eview <- getEventMsg ;;
              match eview with
              | None => closeFile_ ;; ret None
              | Some e => ret (Some (Some e))
              end
          end.

Fixpoint prepareNextEvent (fuel : nat) : M (option EventMsgView) :=
  match fuel with
  | O => fun _ => OutOfFuel
  | S fuel' =>
      r <- prepareNextEvent_body ;;
      match r with
      | Some v => ret v
      | None => prepareNextEvent fuel'
      end
  end.

(** [streamReader_->newHeader()]: reports the flag and clears it. *)
Definition newHeader : M bool :=
  r <- gets streamReader_ ;;
  match r with
  | None => undefined
  | Some f =>
      modify (set_streamReader
                (Some (mkSIF (currentFileName_ f) (startMsg_ f) (unread_ f)
                             (currentEvMsg_ f) false))) ;;
      ret (newHeader_ f)
  end.

Definition checkNextEvent (fuel : nat) : M bool :=
  eview <- prepareNextEvent fuel ;;
  match eview with
  | None => ret false
  | Some e =>
      nh <- newHeader ;;
      (if (nh : bool) then
         header <- getHeaderMsg ;;
         deserializeAndMergeWithRegistry header true
       else ret tt) ;;
      n <- gets processedEventPerLs_ ;;
      modify (set_processedEventPerLs (n + 1)) ;;
      deserializeEvent e ;;
      ret true
  end.

(** [--i] and [++i] on an [int]. *)
Definition int_pred (i : Z) : M Z :=
  if bool_decide (i = INT_MIN) then undefined else ret (i - 1).
Definition int_succ (i : Z) : M Z :=
  if bool_decide (i = INT_MAX) then undefined else ret (i + 1).

Definition skipIt (e : EventMsgView) : bool :=
  match eventSkipperByID_ cfg with
  | Some sk => sk (run e) (lumi e) (event e)
  | None => false
  end.

(** The [for (int i = 0; i != toSkip; ++i)] of [skip], from the test of
    its condition on; [fuel] bounds the passes through its body and
    [pf] the loop of each [prepareNextEvent]. *)
Fixpoint skip_loop (fuel pf : nat) (i toSkip : Z) : M unit :=
  if bool_decide (i = toSkip) then ret tt
  else
    match fuel with
    | O => fun _ => OutOfFuel
    | S fuel' =>
        evMsg <- prepareNextEvent pf ;;
        match evMsg with
        | None => ret tt
        | Some e =>
            i1 <- (if skipIt e then int_pred i else ret i) ;;
            i2 <- int_succ i1 ;;
            skip_loop fuel' pf i2 toSkip
        end
    end.

Definition skip (fuel pf : nat) (toSkip : Z) : M unit :=
  skip_loop fuel pf 0 toSkip.

(** The first loop of [reset_]: wait until one file has been opened. *)
Fixpoint reset_first (fuel : nat) : M unit :=
  match fuel with
  | O => fun _ => OutOfFuel
  | S fuel' =>
      hn <- FileIterator.hasNext ;;
      if negb hn then delay_ ;; reset_first fuel'
      else
        opened <- openNextFile_ ;;
        if (opened : bool) then ret tt else reset_first fuel'
  end.

(** The second loop of [reset_]: [while (hasNext()) openNextFile_();]. *)
Fixpoint reset_forward (fuel : nat) : M unit :=
  match fuel with
  | O => fun _ => OutOfFuel
  | S fuel' =>
      hn <- FileIterator.hasNext ;;
      if (hn : bool) then openNextFile_ ;; reset_forward fuel' else ret tt
  end.

Definition reset_ (fuel : nat) : M unit :=
  FileIterator.initialise (runNumber_ cfg) (runInputDir_ cfg) ;;
  reset_first fuel ;;
  if flagSkipFirstLumis_ cfg then reset_forward fuel else ret tt.

End DQMStreamerReader.

(** ** Reading the outcome of a computation *)

(** The state a computation stops in, when it returns or throws. *)
Definition final {A} (o : Outcome A) : option Sys :=
  match o with
  | Done _ s | Thrown _ s => Some s
  | Undefined | OutOfFuel => None
  end.

(** The event records read so far, newest first. *)
Definition reads (s : Sys) : list EventMsgView :=
  omap (fun o => match o with ObsRead _ e => Some e | _ => None end) (trace s).

(** The state [closeFile_] leaves behind. *)
Definition closed (s : Sys) : Sys :=
  match streamReader_ s with
  | Some f => set_streamReader None (emit (ObsClose (currentFileName_ f)) s)
  | None => s
  end.

(** A freshly constructed [StreamerInputFile] on the file [f] at [p]. *)
Definition handle (p : string) (f : DatFile) : StreamerInputFile :=
  mkSIF p (dat_start f) (dat_events f) None false.

(** The run is live: the end-of-run protocol has not started and no scan
    to come will start it. *)
Definition live (s : Sys) : Prop :=
  state_ (fiterator_ s) = OPEN /\ Forall (fun st => marker st = OPEN) (future s).

Arguments FileIterator.update_state : simpl never.
Arguments openNextFile_ : simpl never.
Arguments closeFile_ : simpl never.
Arguments getEventMsg : simpl never.
Arguments delay_ : simpl never.

(** ** A small run directory

    Concrete inputs on which the properties below are exercised: three
    lumisections, their data files, and a file that starts with an EVENT
    record.  [Header::INIT] is taken to be 1. *)

Definition ex_INIT : N := 1.

Definition ex_event (n : N) : EventMsgView := mkEvent 1 1 n.

Definition ex_ls1 : LumiEntry := mkLumi 1 "run000001_ls0001.dat".
Definition ex_ls2 : LumiEntry := mkLumi 2 "run000001_ls0002.dat".
Definition ex_ls3 : LumiEntry := mkLumi 3 "run000001_ls0003.dat".

Definition ex_dat1 : DatFile := mkDat (mkInit 1) [ex_event 1; ex_event 2; ex_event 3].
Definition ex_dat2 : DatFile := mkDat (mkInit 1) [ex_event 4].
Definition ex_dat3 : DatFile := mkDat (mkInit 1) [ex_event 5; ex_event 6].
Definition ex_bad : DatFile := mkDat (mkInit 2) [ex_event 7].

(** The event stream 1, 2, 5, 3, 9, 4 in one file. *)
Definition ex_stream : DatFile :=
  mkDat (mkInit 1) (map ex_event [1; 2; 5; 3; 9; 4]%N).

(** A skip predicate that filters the event numbers 5 and 9. *)
Definition ex_skipper : N -> N -> N -> bool :=
  fun _ _ e => bool_decide (e = 5%N) || bool_decide (e = 9%N).

Definition ex_cfg (minEvents : Z) (skipFirst kills deletes : bool)
    (skipper : option (N -> N -> N -> bool)) : Config :=
  mkConfig 1 "/dqm" minEvents skipFirst kills deletes skipper.

(** All defaults of [fillDescriptions]. *)
Definition ex_default : Config := ex_cfg 1 false false false None.

(** The three data files on disk. *)
Definition ex_disk : gmap string DatFile :=
  <["run000001_ls0001.dat" := ex_dat1]>
    (<["run000001_ls0002.dat" := ex_dat2]>
       (<["run000001_ls0003.dat" := ex_dat3]> ∅)).

(** A reader that has not been constructed yet, in front of a directory
    whose first scan finds [entries] and the files [files]. *)
Definition ex_start (entries : list LumiEntry) (files : list (string * DatFile)) : Sys :=
  mkSys (mkIter [] OPEN) None 0 ∅ [mkPoll entries files OPEN] [].

(** A reader with no file open, [q] queued, and no scan to come. *)
Definition ex_idle (q : list LumiEntry) (st : State) (d : gmap string DatFile) : Sys :=
  mkSys (mkIter q st) None 0 d [] [].

(** A reader with the file [f] at [p] open, [n] events of it processed by
    [checkNextEvent] so far, [q] queued, and no scan to come. *)
Definition ex_reading (p : string) (f : DatFile) (n : Z) (q : list LumiEntry)
    (d : gmap string DatFile) : Sys :=
  mkSys (mkIter q OPEN) (Some (handle p f)) n d [] [].

(** [deleteDatFiles] set, everything else at its default. *)
Definition ex_deleting : Config := ex_cfg 1 false false true None.

(** [endOfRunKills] set, everything else at its default. *)
Definition ex_killing : Config := ex_cfg 1 false true false None.

(** [skipFirstLumis] set, everything else at its default. *)
Definition ex_skipping_first : Config := ex_cfg 1 true false false None.

(** [minEventsPerLumi] = 2. *)
Definition ex_min2 : Config := ex_cfg 2 false false false None.

(** The skip predicate that filters the events 5 and 9. *)
Definition ex_filtering : Config := ex_cfg 1 false false false (Some ex_skipper).

(** One lumisection announced, its data file written. *)
Definition ex_one_lumi : Sys :=
  ex_start [ex_ls1] [("run000001_ls0001.dat", ex_dat1)].

(** Three lumisections announced and written before the reader starts. *)
Definition ex_three_lumis : Sys :=
  ex_start [ex_ls1; ex_ls2; ex_ls3]
    [("run000001_ls0001.dat", ex_dat1);
     ("run000001_ls0002.dat", ex_dat2);
     ("run000001_ls0003.dat", ex_dat3)].

(** The run is over, two lumisections are still queued, no file is open. *)
Definition ex_run_over : Sys := ex_idle [ex_ls2; ex_ls3] EOR ex_disk.

(** The run is over and everything has been processed. *)
Definition ex_drained : Sys := ex_idle [] EOR ex_disk.

(** The file of lumisection 1 is open, [n] of its events processed, and
    lumisection 2 is queued. *)
Definition ex_on_ls1 (n : Z) : Sys :=
  ex_reading "run000001_ls0001.dat" ex_dat1 n [ex_ls2] ex_disk.

(** Lumisections 1 and 2 are queued; the file of lumisection 1 has not
    been written. *)
Definition ex_ls1_missing : Sys :=
  ex_idle [ex_ls1; ex_ls2] OPEN (<["run000001_ls0002.dat" := ex_dat2]> ∅).

(** The file of lumisection 1 is open; lumisection 2 is queued, but its
    file has not been written. *)
Definition ex_ls2_missing : Sys :=
  ex_reading "run000001_ls0001.dat" ex_dat1 2 [ex_ls2]
    (<["run000001_ls0001.dat" := ex_dat1]> ∅).

(** A file whose first record is an EVENT record. *)
Definition ex_bad_disk : Sys := ex_idle [] OPEN (<["bad.dat" := ex_bad]> ∅).

(** The stream 1, 2, 5, 3, 9, 4 is open, nothing read yet. *)
Definition ex_on_stream : Sys := ex_reading "stream.dat" ex_stream 0 [] ∅.

(** ** Z2muAnalyzer

    [GeneratorInterface/PomwigInterface/test/Z2muAnalyzer.cc]: the
    selection of the stable muons of a generated event and the filling of
    the invariant-mass histogram.  The four-momenta and the [double]s are
    those of CLHEP and of the machine; they are kept abstract, with the
    operations [analyze] applies to them. *)

Module Z2muAnalyzer.

Section Analyzer.

(** [HepLorentzVector] and [double]. *)
Variable HepLorentzVector : Type.
Variable double : Type.

(** The literal [0.0], [operator+=] of two four-momenta, [m2()] and
    [sqrt]. *)
Variable zero : double.
Variable plus : HepLorentzVector -> HepLorentzVector -> HepLorentzVector.
Variable m2 : HepLorentzVector -> double.
Variable sqrt : double -> double.

(** What [analyze] reads of a [HepMC::GenParticle]. *)
Record GenParticle := mkParticle {
  pdg_id : Z;
  status : Z;
  momentum : HepLorentzVector
}.

(** [abs] of an [int]: undefined on the least [int]. *)
Definition abs (x : Z) : option Z :=
  if bool_decide (x = INT_MIN) then None else Some (Z.abs x).

(** The loop over the particles of the event: a particle is pushed to
    the back of [muons] when [abs(pdg_id) == 13 && status == 1].  [None]
    when [abs] is applied to the least [int]. *)
Fixpoint stable_muons (particles : list GenParticle) (muons : list GenParticle)
  : option (list GenParticle) :=
  match particles with
  | [] => Some muons
  | p :: rest =>
      match abs (pdg_id p) with
      | None => None
      | Some a =>
          if bool_decide (a = 13) && bool_decide (status p = 1)
          then stable_muons rest (muons ++ [p])
          else stable_muons rest muons
      end
  end.

(** The invariant mass of the first two muons, [0.0] when there are
    fewer than two. *)
Definition inv_mass (muons : list GenParticle) : double :=
  match muons with
  | m0 :: m1 :: _ => sqrt (m2 (plus (momentum m0) (momentum m1)))
  | _ => zero
  end.

(** What is written to [std::cout]. *)
Inductive Printed :=
| PrintSize (n : nat)
| PrintMass (m : double).

(** The analyzer: the values [Fill]ed into [invmass_histo] and the lines
    printed, newest first. *)
Record Analyzer := mkAnalyzer {
  invmass_histo : list double;
  cout : list Printed
}.

Definition analyze (evt : list GenParticle) (a : Analyzer) : option Analyzer :=
  match stable_muons evt [] with
  | None => None
  | Some muons =>
      let m := inv_mass muons in
      Some (mkAnalyzer (m :: invmass_histo a)
                       (PrintMass m :: PrintSize (length muons) :: cout a))
  end.

(** The event loop of a job: [analyze] on each event in turn. *)
Fixpoint job (events : list (list GenParticle)) (a : Analyzer) : option Analyzer :=
  match events with
  | [] => Some a
  | evt :: rest =>
      match analyze evt a with
      | None => None
      | Some a' => job rest a'
      end
  end.

(** A particle is a stable muon: code 13 or -13, status 1. *)
Definition is_stable_muon (p : GenParticle) : bool :=
  (bool_decide (pdg_id p = 13) || bool_decide (pdg_id p = -13))
  && bool_decide (status p = 1).

(** What [analyze] fills for an event: the invariant mass of its first
    two stable muons, [0.0] when it has fewer than two. *)
Definition entry (evt : list GenParticle) : double :=
  inv_mass (filter is_stable_muon evt).

(** No particle of the event carries the least [int] as its code. *)
Definition codes_in_range (evt : list GenParticle) : Prop :=
  Forall (fun p => pdg_id p ≠ INT_MIN) evt.

End Analyzer.

Arguments mkParticle {HepLorentzVector} pdg_id status momentum.
Arguments pdg_id {HepLorentzVector} g.
Arguments status {HepLorentzVector} g.
Arguments momentum {HepLorentzVector} g.
Arguments abs x : simpl never.
Arguments stable_muons {HepLorentzVector} particles muons.
Arguments inv_mass {HepLorentzVector double} zero plus m2 sqrt muons.
Arguments PrintSize {double} n.
Arguments PrintMass {double} m.
Arguments mkAnalyzer {double} invmass_histo cout.
Arguments invmass_histo {double} a.
Arguments cout {double} a.
Arguments analyze {HepLorentzVector double} zero plus m2 sqrt evt a.
Arguments job {HepLorentzVector double} zero plus m2 sqrt events a.
Arguments is_stable_muon {HepLorentzVector} p.
Arguments codes_in_range {HepLorentzVector} evt.
Arguments entry {HepLorentzVector double} zero plus m2 sqrt evt.

(** A toy kinematics for examples: momenta and masses are integers, the
    mass of a momentum is the momentum itself. *)
Definition ex_analyze := analyze (0 : Z) Z.add (fun v : Z => v) (fun d : Z => d).
Definition ex_job := job (0 : Z) Z.add (fun v : Z => v) (fun d : Z => d).

(** A Z decaying to two muons, with a photon and an unstable muon. *)
Definition ex_Z_event : list (GenParticle Z) :=
  [mkParticle 23 3 91; mkParticle 13 3 40; mkParticle 22 1 5;
   mkParticle 13 1 40; mkParticle (-13) 1 50; mkParticle 13 1 7].

End Z2muAnalyzer.

(** ** More of the small run directory *)

(** Three lumisections announced before the reader starts; the file of
    the first has not been written. *)
Definition ex_late_start : Sys :=
  ex_start [ex_ls1; ex_ls2; ex_ls3]
    [("run000001_ls0002.dat", ex_dat2); ("run000001_ls0003.dat", ex_dat3)].

(** Nothing announced, and nothing to come. *)
Definition ex_empty_start : Sys :=
  mkSys (mkIter [] OPEN) None 0 ∅ [] [].

(** The run is live, nothing is queued, no file is open. *)
Definition ex_nothing_yet : Sys := ex_idle [] OPEN ex_disk.

(** The run is over, nothing is queued, the file of lumisection 1 is open
    with its three events unread. *)
Definition ex_last_file : Sys :=
  mkSys (mkIter [] EOR) (Some (handle "run000001_ls0001.dat" ex_dat1)) 0 ex_disk [] [].

(** The run is over with lumisection 2 queued and the file of lumisection
    1 open, its three events unread. *)
Definition ex_run_over_reading : Sys :=
  mkSys (mkIter [ex_ls2] EOR) (Some (handle "run000001_ls0001.dat" ex_dat1)) 1 ex_disk [] [].

(** As many events as an [int] can count. *)
Definition ex_many : list EventMsgView := replicate (Z.to_nat INT_MAX) (ex_event 1).

(** The run is live, nothing is queued, and the open file holds two more
    records than an [int] can count. *)
Definition ex_overflowing : Sys :=
  ex_reading "run000001_ls0001.dat"
    (mkDat (mkInit 1) (ex_many ++ [ex_event 2; ex_event 3])) 0 [] ∅.

(** ** Properties *)

Section Properties.

Variable INIT : N.
Variable cfg : Config.

Abbreviation update_state := FileIterator.update_state.
Abbreviation make_path_data := FileIterator.make_path_data.
Abbreviation body := (prepareNextEvent_body INIT cfg).

(** The test at the top of the loop of [prepareNextEvent]. *)
Definition killed (s : Sys) : bool :=
  flagEndOfRunKills_ cfg && bool_decide (state_ (fiterator_ s) ≠ OPEN).

(** The test of the threshold rotation, after the scan [hasNext()] made. *)
Definition rotate (s : Sys) : bool :=
  negb (bool_decide (queue_ (fiterator_ s) = []))
  && (minEventsPerLs_ cfg <? processedEventPerLs_ s).

(** Reading on from the open file: the last statement of the loop. *)
Definition readOn : M (option (option EventMsgView)) :=
  eview <- getEventMsg ;;
  match eview with
  | None => closeFile_ ;; ret None
  | Some e => ret (Some (Some e))
  end.

(** What [openFile_] leaves behind on a file that starts with INIT. *)
Definition opened (p : string) (f : DatFile) (s : Sys) : Sys :=
  let s1 := emit (ObsMerge (dat_start f) false)
              (set_streamReader (Some (handle p f))
                 (emit (ObsOpen p) (set_processedEventPerLs 0 s))) in
  let s2 := set_processedEventPerLs 0 s1 in
  if flagDeleteDatFiles_ cfg
  then set_disk (delete p (disk s2)) (emit (ObsUnlink p) s2)
  else s2.

(** The state in which [prepareNextEvent] has given up: no file is open,
    and either the end of the run kills the processing or the run is over
    with nothing queued. *)
Definition finished (s : Sys) : Prop :=
  streamReader_ s = None /\
  (killed s = true \/ (queue_ (fiterator_ s) = [] /\ state_ (fiterator_ s) = EOR)).

(** [s'] is reached from [s] by scans of the directory followed by steps
    that leave the state of the run and the scans to come untouched. *)
Definition follows (s s' : Sys) : Prop :=
  exists n, state_ (fiterator_ s') = state_ (fiterator_ (Nat.iter n update_state s)) /\
            future s' = future (Nat.iter n update_state s).

(** The number of events of [es] the skip predicate lets through. *)
Definition kept (es : list EventMsgView) : Z :=
  Z.of_nat (length (filter (fun e => skipIt cfg e = false) es)).

(** The shortest prefix of [es] with [k] events the predicate lets
    through, when [es] has that many. *)
Fixpoint skipped_prefix (k : nat) (es : list EventMsgView) {struct es}
  : option (list EventMsgView) :=
  match k, es with
  | O, _ => Some []
  | S _, [] => None
  | S k', e :: es' =>
      if skipIt cfg e then cons e <$> skipped_prefix k es'
      else cons e <$> skipped_prefix k' es'
  end.

(** The state after the open file [f] has handed out [e], with [rest]
    still to be read. *)
Definition advance (f : StreamerInputFile) (e : EventMsgView)
    (rest : list EventMsgView) (s : Sys) : Sys :=
  set_streamReader
    (Some (mkSIF (currentFileName_ f) (startMsg_ f) rest (Some e) (newHeader_ f)))
    (emit (ObsRead (currentFileName_ f) e) s).

(** Start-up on a backlog whose last entry is [l], with data file [fl]:
    the queue is [q] followed by [l]; nothing more will be found by a
    scan; every file on disk starts with an INIT record; the file of [l]
    is on disk, under a name none of the entries before it uses. *)
Definition backlog (l : LumiEntry) (fl : DatFile) (q : list LumiEntry) (s : Sys) : Prop :=
  queue_ (fiterator_ s) = q ++ [l] /\
  (make_path_data l ∉ map make_path_data q) /\
  future s = [] /\
  (forall p f, disk s !! p = Some f -> code (dat_start f) = INIT) /\
  disk s !! make_path_data l = Some fl.

(** The file of [l] is open, none of its records read, nothing queued. *)
Definition arrived (l : LumiEntry) (fl : DatFile) (s : Sys) : Prop :=
  streamReader_ s = Some (handle (make_path_data l) fl) /\
  queue_ (fiterator_ s) = [] /\
  future s = [].

(** The state in which [openNextFile_] looks for the data file: the open
    file closed, the front entry popped, [q] left in the queue. *)
Definition popped (q : list LumiEntry) (s : Sys) : Sys :=
  set_fiterator (mkIter q (state_ (fiterator_ s))) (closed s).

(** The state in which [getHeaderMsg] inspects the start message of the
    file [f] at [p] that [openFile_] has just opened. *)
Definition opening (p : string) (f : DatFile) (s : Sys) : Sys :=
  set_streamReader (Some (handle p f)) (emit (ObsOpen p) (set_processedEventPerLs 0 s)).

(** The data files [openNextFile_] has looked for so far, found or not,
    newest first. *)
Definition visited (s : Sys) : list string :=
  omap (fun o => match o with
                 | ObsOpen p | ObsMissing p => Some p
                 | _ => None
                 end) (trace s).

(** The events handed to [deserializeEvent] so far, newest first. *)
Definition delivered (s : Sys) : list EventMsgView :=
  omap (fun o => match o with ObsEvent e => Some e | _ => None end) (trace s).

(** One effect, seen from the file that is open before it: the file that
    is open after it, or [None] when the effect is out of place (a file
    opened while another is open, a read or a close on a file that is not
    the open one). *)
Definition track (cur : option string) (o : Obs) : option (option string) :=
  match o with
  | ObsOpen p => match cur with None => Some (Some p) | Some _ => None end
  | ObsClose p | ObsRead p _ | ObsEOF p =>
      match cur with
      | Some p' => if bool_decide (p' = p)
                   then Some (match o with ObsClose _ => None | _ => cur end)
                   else None
      | None => None
      end
  | ObsDelay | ObsUnlink _ | ObsMissing _ | ObsMerge _ _ | ObsEvent _ => Some cur
  end.

(** The file open at the end of a trace (newest effect first) that starts
    with no file open, when every effect of the trace is in place. *)
Fixpoint tracked (tr : list Obs) : option (option string) :=
  match tr with
  | [] => Some None
  | o :: tr' => match tracked tr' with
                | Some cur => track cur o
                | None => None
                end
  end.

(** An outcome the reader may have: not undefined behaviour, and no
    exception other than the wrong first record of a file. *)
Definition sound {A} (o : Outcome A) : Prop :=
  match o with
  | Undefined => False
  | Thrown e _ => exists c, c ≠ INIT /\ e = wrongMessageType c
  | Done _ _ | OutOfFuel => True
  end.

(** The data files a list of entries names. *)
Definition paths (q : list LumiEntry) : list string := map make_path_data q.

(** Every [unlink] in a trace (newest effect first) is made with
    [deleteDatFiles] set, on the file whose opening and header merge are
    the two effects just before it. *)
Fixpoint unlinks_ok (tr : list Obs) : Prop :=
  match tr with
  | [] => True
  | ObsUnlink p :: tr' =>
      flagDeleteDatFiles_ cfg = true /\
      (exists h rest, tr' = ObsMerge h false :: ObsOpen p :: rest) /\
      unlinks_ok tr'
  | _ :: tr' => unlinks_ok tr'
  end.

(** A property of the state that every elementary step of the reader
    keeps: a scan of the directory, closing the open file, a sleep,
    dropping a missing entry, opening a file, accepting its header, seeing
    the end of the file, reading a record, and the bookkeeping of
    [checkNextEvent]. *)
Definition stable (P : Sys -> Prop) : Prop :=
  (forall s, P s -> P (update_state s)) /\
  (forall s, P s -> P (closed s)) /\
  (forall s, P s -> P (emit ObsDelay s)) /\
  (forall s l q,
     P s -> queue_ (fiterator_ s) = l :: q ->
     P (emit (ObsMissing (make_path_data l))
          (set_fiterator (mkIter q (state_ (fiterator_ s))) s))) /\
  (forall s l q f,
     P s -> streamReader_ s = None -> queue_ (fiterator_ s) = l :: q ->
     P (opening (make_path_data l) f
          (set_fiterator (mkIter q (state_ (fiterator_ s))) s))) /\
  (forall s p f, P (opening p f s) -> P (opened p f s)) /\
  (forall s f,
     P s -> streamReader_ s = Some f -> P (emit (ObsEOF (currentFileName_ f)) s)) /\
  (forall s f e rest,
     P s -> streamReader_ s = Some f -> unread_ f = e :: rest ->
     P (advance f e rest s)) /\
  (forall s f,
     P s -> streamReader_ s = Some f ->
     P (set_streamReader
          (Some (mkSIF (currentFileName_ f) (startMsg_ f) (unread_ f)
                       (currentEvMsg_ f) false)) s)) /\
  (forall s h, P s -> P (emit (ObsMerge h true) s)) /\
  (forall s e,
     P s ->
     P (emit (ObsEvent e) (set_processedEventPerLs (processedEventPerLs_ s + 1) s))).

(** Nothing makes the reader leave the open file before its end: the end
    of the run does not kill the processing, and the counter is not above
    the threshold, or the run is over with nothing queued. *)
Definition steady (s : Sys) : Prop :=
  flagEndOfRunKills_ cfg = false /\
  (processedEventPerLs_ s <= minEventsPerLs_ cfg \/
   (state_ (fiterator_ s) = EOR /\ queue_ (fiterator_ s) = [])).

(** The state after the records [es] of the open file [f] have been read
    one by one, each in a pass of the loop that starts with a scan. *)
Fixpoint consume (f : StreamerInputFile) (es : list EventMsgView) (s : Sys) : Sys :=
  match es with
  | [] => s
  | e :: es' =>
      consume (mkSIF (currentFileName_ f) (startMsg_ f) (tail (unread_ f)) (Some e)
                     (newHeader_ f))
              es'
              (advance f e (tail (unread_ f)) (update_state s))
  end.

(** Up to [k] calls of [checkNextEvent] in a row, as the event loop of
    the framework makes them, until one returns false. *)
Fixpoint pump (k fuel : nat) : M bool :=
  match k with
  | O => ret true
  | S k' =>
      more <- checkNextEvent INIT cfg fuel ;;
      if (more : bool) then pump k' fuel else ret false
  end.

Ltac run_body :=
  unfold prepareNextEvent_body, FileIterator.hasNext, FileIterator.state,
    bind, gets, ret; simpl.

Ltac run :=
  unfold openNextFile_, openFile_, closeFile_, getEventMsg, getHeaderMsg, newHeader,
    newStreamerInputFile, unlink, exists_, deserializeAndMergeWithRegistry,
    deserializeEvent, delay_, FileIterator.pop, FileIterator.state,
    bind, gets, ret, modify, throw, undefined; simpl.

(** *** The directory scan *)

Lemma update_reader s : streamReader_ (update_state s) = streamReader_ s.
Proof.
  unfold update_state. destruct (state_ (fiterator_ s)), (future s); reflexivity.
Qed.

Lemma update_processed s :
  processedEventPerLs_ (update_state s) = processedEventPerLs_ s.
Proof.
  unfold update_state. destruct (state_ (fiterator_ s)), (future s); reflexivity.
Qed.

Lemma update_trace s : trace (update_state s) = trace s.
Proof.
  unfold update_state. destruct (state_ (fiterator_ s)), (future s); reflexivity.
Qed.

Lemma update_EOR s : state_ (fiterator_ s) = EOR -> update_state s = s.
Proof. unfold update_state. intros ->. reflexivity. Qed.

Lemma update_quiet s : future s = [] -> update_state s = s.
Proof.
  unfold update_state. intros ->. destruct (state_ (fiterator_ s)); reflexivity.
Qed.

Lemma update_not_OPEN s :
  state_ (fiterator_ s) ≠ OPEN -> state_ (fiterator_ (update_state s)) ≠ OPEN.
Proof.
  unfold update_state.
  destruct (state_ (fiterator_ s)) eqn:E, (future s) as [|[a w []] r];
    simpl; congruence.
Qed.

Lemma update_killed s : killed s = true -> killed (update_state s) = true.
Proof.
  unfold killed. intros [Hf Hs%bool_decide_eq_true_1]%andb_prop.
  rewrite Hf. simpl. apply bool_decide_eq_true_2. by apply update_not_OPEN.
Qed.

Lemma update_live s : live s -> live (update_state s).
Proof.
  unfold live, update_state. intros [Hs Hf]. rewrite Hs.
  destruct (future s) as [|st r] eqn:E; simpl; [by rewrite E|].
  inversion Hf as [|? ? Hm Hr]; subst. rewrite Hm. by split.
Qed.

Lemma live_not_killed s : live s -> killed s = false.
Proof.
  unfold live, killed. intros [-> _]. rewrite bool_decide_eq_false_2 by naive_solver.
  apply andb_false_r.
Qed.

(** *** Closing and opening *)

Lemma closeFile_eq s : closeFile_ s = Done tt (closed s).
Proof. unfold closed. run. destruct (streamReader_ s); reflexivity. Qed.

Lemma closed_reader s : streamReader_ (closed s) = None.
Proof. unfold closed. destruct (streamReader_ s) eqn:E; [reflexivity | exact E]. Qed.

Lemma closed_null s : streamReader_ s = None -> closed s = s.
Proof. unfold closed. intros ->. reflexivity. Qed.

Lemma closed_iter s : fiterator_ (closed s) = fiterator_ s.
Proof. unfold closed. destruct (streamReader_ s); reflexivity. Qed.

Lemma closed_processed s : processedEventPerLs_ (closed s) = processedEventPerLs_ s.
Proof. unfold closed. destruct (streamReader_ s); reflexivity. Qed.

Lemma closed_disk s : disk (closed s) = disk s.
Proof. unfold closed. destruct (streamReader_ s); reflexivity. Qed.

Lemma closed_future s : future (closed s) = future s.
Proof. unfold closed. destruct (streamReader_ s); reflexivity. Qed.

Lemma closed_reads s : reads (closed s) = reads s.
Proof. unfold closed. destruct (streamReader_ s); reflexivity. Qed.

(** The entry at the front names a file that is not on disk. *)
Lemma openNextFile_missing s l q :
  queue_ (fiterator_ s) = l :: q ->
  disk s !! make_path_data l = None ->
  openNextFile_ INIT cfg s =
    Done false (emit (ObsMissing (make_path_data l))
                  (set_fiterator (mkIter q (state_ (fiterator_ s))) (closed s))).
Proof.
  intros Hq Hd. unfold openNextFile_. unfold bind at 1. rewrite closeFile_eq.
  run. rewrite closed_iter, Hq. simpl.
  rewrite closed_iter, Hq, closed_disk, Hd. reflexivity.
Qed.

Lemma openFile_good s p f :
  disk s !! p = Some f -> code (dat_start f) = INIT ->
  openFile_ INIT cfg p s = Done tt (opened p f s).
Proof.
  intros Hd Hc. unfold opened. run. rewrite Hd. simpl.
  rewrite bool_decide_eq_false_2 by (intros H; by apply H). simpl.
  destruct (flagDeleteDatFiles_ cfg); reflexivity.
Qed.

Lemma openFile_bad s p f :
  disk s !! p = Some f -> code (dat_start f) ≠ INIT ->
  openFile_ INIT cfg p s =
    Thrown (wrongMessageType (code (dat_start f)))
      (set_streamReader (Some (handle p f))
         (emit (ObsOpen p) (set_processedEventPerLs 0 s))).
Proof.
  intros Hd Hc. run. rewrite Hd. simpl.
  rewrite bool_decide_eq_true_2 by done. reflexivity.
Qed.

Lemma openNextFile_present s l q f :
  queue_ (fiterator_ s) = l :: q ->
  disk s !! make_path_data l = Some f ->
  openNextFile_ INIT cfg s =
    (openFile_ INIT cfg (make_path_data l) ;; ret true)
      (set_fiterator (mkIter q (state_ (fiterator_ s))) (closed s)).
Proof.
  intros Hq Hd. unfold openNextFile_. unfold bind at 1. rewrite closeFile_eq.
  unfold bind at 1, gets at 1. rewrite closed_iter, Hq.
  unfold bind at 1, FileIterator.pop, modify. simpl.
  rewrite closed_iter, Hq. simpl.
  unfold bind at 1, exists_, gets. simpl. rewrite closed_disk, Hd.
  rewrite bool_decide_eq_true_2 by eauto. reflexivity.
Qed.

(** *** Reading *)

Lemma getEventMsg_eof s f :
  streamReader_ s = Some f -> unread_ f = [] ->
  getEventMsg s = Done None (emit (ObsEOF (currentFileName_ f)) s).
Proof. intros Hr Hu. run. rewrite Hr, Hu. reflexivity. Qed.

Lemma getEventMsg_some s f e rest :
  streamReader_ s = Some f -> unread_ f = e :: rest ->
  getEventMsg s =
    Done (Some e)
      (set_streamReader
         (Some (mkSIF (currentFileName_ f) (startMsg_ f) rest (Some e) (newHeader_ f)))
         (emit (ObsRead (currentFileName_ f) e) s)).
Proof. intros Hr Hu. run. rewrite Hr, Hu. reflexivity. Qed.

Lemma readOn_eof s f :
  streamReader_ s = Some f -> unread_ f = [] ->
  readOn s =
    Done None (set_streamReader None
                 (emit (ObsClose (currentFileName_ f))
                    (emit (ObsEOF (currentFileName_ f)) s))).
Proof.
  intros Hr Hu. unfold readOn, bind. rewrite (getEventMsg_eof _ _ Hr Hu).
  rewrite closeFile_eq. unfold closed. simpl. rewrite Hr. reflexivity.
Qed.

Lemma readOn_some s f e rest :
  streamReader_ s = Some f -> unread_ f = e :: rest ->
  readOn s =
    Done (Some (Some e))
      (set_streamReader
         (Some (mkSIF (currentFileName_ f) (startMsg_ f) rest (Some e) (newHeader_ f)))
         (emit (ObsRead (currentFileName_ f) e) s)).
Proof.
  intros Hr Hu. unfold readOn, bind. rewrite (getEventMsg_some _ _ _ _ Hr Hu).
  reflexivity.
Qed.

(** *** One pass through the loop of [prepareNextEvent] *)

Lemma body_killed s :
  killed s = true -> body s = Done (Some None) (closed s).
Proof.
  unfold killed. intros H. run_body. rewrite H. rewrite closeFile_eq. reflexivity.
Qed.

Lemma body_open s f :
  streamReader_ s = Some f -> killed s = false ->
  body s =
    (if rotate (update_state s) then openNextFile_ INIT cfg ;; ret None else readOn)
      (update_state s).
Proof.
  unfold killed, rotate, readOn. intros Hr Hk. run_body. rewrite Hk.
  repeat (progress (rewrite ?update_reader, ?Hr; simpl)). clear Hk.
  destruct (_ && _); simpl; rewrite ?update_reader, ?Hr; reflexivity.
Qed.

Lemma body_null_advance s :
  streamReader_ s = None -> killed s = false ->
  queue_ (fiterator_ (update_state (update_state s))) ≠ [] ->
  body s = (openNextFile_ INIT cfg ;; ret None) (update_state (update_state s)).
Proof.
  unfold killed. intros Hr Hk Hq. run_body. rewrite Hk, Hr. clear Hk. simpl.
  case_bool_decide as Hq1; simpl.
  - case_bool_decide as Hst; simpl.
    + rewrite (update_EOR _ Hst) in Hq. congruence.
    + rewrite update_reader, Hr. simpl.
      rewrite (bool_decide_eq_false_2 _ Hq). simpl.
      destruct (openNextFile_ _ _ _); reflexivity.
  - rewrite update_reader, Hr. simpl.
    rewrite (bool_decide_eq_false_2 _ Hq). simpl.
    destruct (openNextFile_ _ _ _); reflexivity.
Qed.

Lemma body_null_finished s :
  streamReader_ s = None -> killed s = false ->
  queue_ (fiterator_ (update_state s)) = [] ->
  state_ (fiterator_ (update_state s)) = EOR ->
  body s = Done (Some None) (update_state s).
Proof.
  unfold killed. intros Hr Hk Hq Hst. run_body. rewrite Hk, Hr. clear Hk. simpl.
  rewrite (bool_decide_eq_true_2 _ Hq). simpl.
  rewrite (bool_decide_eq_true_2 _ Hst). rewrite closeFile_eq.
  rewrite closed_null by (by rewrite update_reader). reflexivity.
Qed.

Lemma body_null_wait s :
  streamReader_ s = None -> killed s = false ->
  state_ (fiterator_ (update_state s)) ≠ EOR ->
  queue_ (fiterator_ (update_state (update_state s))) = [] ->
  body s =
    (if rotate (update_state (update_state (update_state s)))
     then openNextFile_ INIT cfg ;; ret None
     else delay_ ;; ret None)
      (update_state (update_state (update_state s))).
Proof.
  unfold killed, rotate. intros Hr Hk Hst Hq. run_body. rewrite Hk, Hr. clear Hk. simpl.
  destruct (negb (negb _)) eqn:E; simpl.
  - rewrite (bool_decide_eq_false_2 _ Hst). simpl.
    rewrite update_reader, Hr. simpl.
    rewrite (bool_decide_eq_true_2 _ Hq). simpl.
    destruct (_ && _); simpl; [reflexivity|].
    rewrite !update_reader, Hr. reflexivity.
  - rewrite update_reader, Hr. simpl.
    rewrite (bool_decide_eq_true_2 _ Hq). simpl.
    destruct (_ && _); simpl; [reflexivity|].
    rewrite !update_reader, Hr. reflexivity.
Qed.

Lemma update_queue s :
  exists more, queue_ (fiterator_ (update_state s)) = queue_ (fiterator_ s) ++ more.
Proof.
  unfold update_state.
  destruct (state_ (fiterator_ s)), (future s) as [|st r]; simpl;
    (by exists []; rewrite app_nil_r) || by eexists.
Qed.

Lemma update_front s l q :
  queue_ (fiterator_ s) = l :: q ->
  exists more, queue_ (fiterator_ (update_state s)) = l :: q ++ more.
Proof. intros H. destruct (update_queue s) as [m Hm]. exists m. by rewrite Hm, H. Qed.

Lemma prepare_S fuel s :
  prepareNextEvent INIT cfg (S fuel) s =
    match body s with
    | Done (Some v) s' => Done v s'
    | Done None s' => prepareNextEvent INIT cfg fuel s'
    | Thrown e s' => Thrown e s'
    | Undefined => Undefined
    | OutOfFuel => OutOfFuel
    end.
Proof. simpl. unfold bind. destruct (body s) as [[v|] s'| | |]; reflexivity. Qed.

Lemma openNextFile_final s l q :
  queue_ (fiterator_ s) = l :: q ->
  exists s', final (openNextFile_ INIT cfg s) = Some s' /\ queue_ (fiterator_ s') = q.
Proof.
  intros Hq. destruct (disk s !! make_path_data l) as [f|] eqn:Hd.
  - rewrite (openNextFile_present _ _ _ _ Hq Hd). unfold bind.
    destruct (decide (code (dat_start f) = INIT)) as [Hc|Hc].
    + rewrite (openFile_good _ _ f) by (simpl; rewrite ?closed_disk; done).
      eexists; split; [reflexivity|]. unfold opened.
      destruct (flagDeleteDatFiles_ cfg); reflexivity.
    + rewrite (openFile_bad _ _ f) by (simpl; rewrite ?closed_disk; done).
      eexists; split; reflexivity.
  - rewrite (openNextFile_missing _ _ _ Hq Hd). eexists; split; reflexivity.
Qed.

Lemma readOn_final s f :
  streamReader_ s = Some f ->
  exists s', final (readOn s) = Some s' /\ fiterator_ s' = fiterator_ s.
Proof.
  intros Hr. destruct (unread_ f) as [|e rest] eqn:Hu.
  - rewrite (readOn_eof _ _ Hr Hu). eexists; split; reflexivity.
  - rewrite (readOn_some _ _ _ _ Hr Hu). eexists; split; reflexivity.
Qed.

(** ** The claims *)

(** C2: with [endOfRunKills] set, when the run is seen to have left the
    OPEN state while no file is open, [prepareNextEvent] returns the null
    pointer and [checkNextEvent] returns false on the first pass of the
    loop, whatever is still queued: nothing is scanned, popped, opened or
    read, the state of the system is unchanged, and nothing is thrown. *)
Theorem endOfRunKills_stops_cleanly s fuel :
  flagEndOfRunKills_ cfg = true ->
  state_ (fiterator_ s) ≠ OPEN ->
  streamReader_ s = None ->
  prepareNextEvent INIT cfg (S fuel) s = Done None s /\
  checkNextEvent INIT cfg (S fuel) s = Done false s.
Proof.
  intros Hk Hst Hr.
  assert (Hp : prepareNextEvent INIT cfg (S fuel) s = Done None s).
  { rewrite prepare_S, body_killed.
    - by rewrite closed_null.
    - unfold killed. rewrite Hk. by apply bool_decide_eq_true_2. }
  split; [exact Hp|]. unfold checkNextEvent, bind. rewrite Hp. reflexivity.
Qed.

Lemma opened_reader p f s : streamReader_ (opened p f s) = Some (handle p f).
Proof. unfold opened. destruct (flagDeleteDatFiles_ cfg); reflexivity. Qed.

Lemma opened_processed p f s : processedEventPerLs_ (opened p f s) = 0.
Proof. unfold opened. destruct (flagDeleteDatFiles_ cfg); reflexivity. Qed.

Lemma opened_iter p f s : fiterator_ (opened p f s) = fiterator_ s.
Proof. unfold opened. destruct (flagDeleteDatFiles_ cfg); reflexivity. Qed.

Lemma opened_future p f s : future (opened p f s) = future s.
Proof. unfold opened. destruct (flagDeleteDatFiles_ cfg); reflexivity. Qed.

Lemma opened_reads p f s : reads (opened p f s) = reads s.
Proof. unfold opened. destruct (flagDeleteDatFiles_ cfg); reflexivity. Qed.

Lemma opened_disk p f s :
  disk (opened p f s) = if flagDeleteDatFiles_ cfg then delete p (disk s) else disk s.
Proof. unfold opened. destruct (flagDeleteDatFiles_ cfg); reflexivity. Qed.

Lemma openNextFile_good s l q f :
  queue_ (fiterator_ s) = l :: q ->
  disk s !! make_path_data l = Some f ->
  code (dat_start f) = INIT ->
  openNextFile_ INIT cfg s =
    Done true (opened (make_path_data l) f
                 (set_fiterator (mkIter q (state_ (fiterator_ s))) (closed s))).
Proof.
  intros Hq Hd Hc. rewrite (openNextFile_present _ _ _ _ Hq Hd). unfold bind.
  rewrite (openFile_good _ _ f) by (simpl; rewrite ?closed_disk; done).
  reflexivity.
Qed.

Lemma openNextFile_bad s l q f :
  queue_ (fiterator_ s) = l :: q ->
  disk s !! make_path_data l = Some f ->
  code (dat_start f) ≠ INIT ->
  exists s', openNextFile_ INIT cfg s = Thrown (wrongMessageType (code (dat_start f))) s'.
Proof.
  intros Hq Hd Hc. rewrite (openNextFile_present _ _ _ _ Hq Hd). unfold bind.
  rewrite (openFile_bad _ _ f) by (simpl; rewrite ?closed_disk; done).
  eexists; reflexivity.
Qed.

(** C7: a pass of the loop that finds no file open and, at the front of
    the queue, an entry whose data file is not on disk drops that entry
    and goes round the loop again: nothing is returned or thrown, no file
    is open, and the per-lumisection counter is what it was.  When the
    entry behind it names a file on disk, the next pass opens that file. *)
Theorem missing_data_file_is_skipped s l q :
  streamReader_ s = None ->
  killed s = false ->
  let s2 := update_state (update_state s) in
  queue_ (fiterator_ s2) = l :: q ->
  disk s2 !! make_path_data l = None ->
  let s' := emit (ObsMissing (make_path_data l))
              (set_fiterator (mkIter q (state_ (fiterator_ s2))) s2) in
  body s = Done None s' /\
  (forall fuel,
     prepareNextEvent INIT cfg (S fuel) s = prepareNextEvent INIT cfg fuel s') /\
  processedEventPerLs_ s' = processedEventPerLs_ s /\
  streamReader_ s' = None /\
  queue_ (fiterator_ s') = q /\
  (forall l2 q2 f2,
     q = l2 :: q2 ->
     killed s' = false ->
     disk (update_state (update_state s')) !! make_path_data l2 = Some f2 ->
     code (dat_start f2) = INIT ->
     exists s'',
       (forall fuel,
          prepareNextEvent INIT cfg (S (S fuel)) s = prepareNextEvent INIT cfg fuel s'') /\
       streamReader_ s'' = Some (handle (make_path_data l2) f2) /\
       processedEventPerLs_ s'' = 0).
Proof.
  intros Hr Hk s2 Hq Hd s'.
  assert (Hr2 : streamReader_ s2 = None) by (unfold s2; by rewrite !update_reader).
  assert (Hb : body s = Done None s').
  { rewrite (body_null_advance _ Hr Hk) by (fold s2; by rewrite Hq).
    fold s2. unfold bind. rewrite (openNextFile_missing _ _ _ Hq Hd).
    by rewrite (closed_null _ Hr2). }
  assert (Hp : forall fuel,
    prepareNextEvent INIT cfg (S fuel) s = prepareNextEvent INIT cfg fuel s').
  { intros fuel. by rewrite prepare_S, Hb. }
  split; [exact Hb|]. split; [exact Hp|].
  split; [unfold s', s2; simpl; by rewrite !update_processed|].
  split; [exact Hr2|]. split; [reflexivity|].
  intros l2 q2 f2 -> Hk' Hd2 Hc2.
  set (t2 := update_state (update_state s')) in *.
  assert (Hq2 : exists more, queue_ (fiterator_ t2) = l2 :: q2 ++ more).
  { destruct (update_front s' l2 q2 eq_refl) as [m1 H1].
    destruct (update_front _ _ _ H1) as [m2 H2]. exists (m1 ++ m2).
    unfold t2. by rewrite H2, <- app_assoc. }
  destruct Hq2 as [more Hq2].
  assert (Hrt : streamReader_ t2 = None) by (unfold t2; by rewrite !update_reader).
  eexists. split; [|split].
  - intros fuel. rewrite Hp, prepare_S.
    rewrite (body_null_advance s' Hr2 Hk') by (fold t2; by rewrite Hq2).
    fold t2. unfold bind. rewrite (openNextFile_good _ _ _ _ Hq2 Hd2 Hc2).
    reflexivity.
  - apply opened_reader.
  - apply opened_processed.
Qed.

(** C8: opening a file that is on disk throws if and only if the code
    of its first record is not INIT.  The exception is a FileReadError whose
    message starts with "received wrong message type: expected INIT";
    nothing catches it: it leaves [openNextFile_], [prepareNextEvent] and
    [checkNextEvent] at once, whatever iteration bound is left. *)
Theorem wrong_first_record_is_fatal s p f :
  disk s !! p = Some f ->
  ((exists e s', openFile_ INIT cfg p s = Thrown e s') <-> code (dat_start f) ≠ INIT) /\
  (forall e s', openFile_ INIT cfg p s = Thrown e s' ->
     category e = FileReadError /\
     message e = "received wrong message type: expected INIT, got "
                   +:+ pretty (code (dat_start f)) +:+ newline /\
     String.prefix "received wrong message type: expected INIT" (message e) = true) /\
  (code (dat_start f) ≠ INIT ->
   forall t l q,
     queue_ (fiterator_ (update_state (update_state t))) = l :: q ->
     make_path_data l = p ->
     disk (update_state (update_state t)) !! p = Some f ->
     streamReader_ t = None ->
     killed t = false ->
     forall fuel, exists t',
       prepareNextEvent INIT cfg (S fuel) t
         = Thrown (wrongMessageType (code (dat_start f))) t' /\
       checkNextEvent INIT cfg (S fuel) t
         = Thrown (wrongMessageType (code (dat_start f))) t').
Proof.
  intros Hd. split; [|split].
  - split.
    + intros (e & s' & H) Hc. rewrite (openFile_good _ _ _ Hd Hc) in H. discriminate.
    + intros Hc. rewrite (openFile_bad _ _ _ Hd Hc). eauto.
  - intros e s' H.
    destruct (decide (code (dat_start f) = INIT)) as [Hc|Hc].
    + rewrite (openFile_good _ _ _ Hd Hc) in H. discriminate.
    + rewrite (openFile_bad _ _ _ Hd Hc) in H. injection H as <- <-.
      split; [reflexivity|]. split; reflexivity.
  - intros Hc t l q Hq <- Hdt Hr Hk fuel.
    destruct (openNextFile_bad _ _ _ _ Hq Hdt Hc) as [t' Ht'].
    assert (Hp : prepareNextEvent INIT cfg (S fuel) t
                 = Thrown (wrongMessageType (code (dat_start f))) t').
    { rewrite prepare_S, (body_null_advance _ Hr Hk) by (by rewrite Hq).
      unfold bind. by rewrite Ht'. }
    exists t'. split; [exact Hp|]. unfold checkNextEvent, bind. by rewrite Hp.
Qed.

(** C9: [openNextFile_] closes the open file and pops the front entry
    before it looks for that entry's data file.  When the file is missing
    it returns false with the former file closed (the close precedes the
    "missing" message in the trace), its unread records dropped with the
    handle, the entry gone from the queue and no file open; a threshold
    rotation that runs into such an entry ends its pass in that state. *)
Theorem advance_is_not_atomic s f l q :
  streamReader_ s = Some f ->
  queue_ (fiterator_ s) = l :: q ->
  disk s !! make_path_data l = None ->
  let s' := emit (ObsMissing (make_path_data l))
              (set_fiterator (mkIter q (state_ (fiterator_ s))) (closed s)) in
  openNextFile_ INIT cfg s = Done false s' /\
  streamReader_ s' = None /\
  queue_ (fiterator_ s') = q /\
  trace s' = ObsMissing (make_path_data l) :: ObsClose (currentFileName_ f) :: trace s /\
  reads s' = reads s /\
  disk s' = disk s /\
  (forall s0,
     update_state s0 = s ->
     killed s0 = false ->
     minEventsPerLs_ cfg < processedEventPerLs_ s0 ->
     body s0 = Done None s' /\
     forall fuel,
       prepareNextEvent INIT cfg (S fuel) s0 = prepareNextEvent INIT cfg fuel s').
Proof.
  intros Hr Hq Hd s'.
  assert (Ho : openNextFile_ INIT cfg s = Done false s')
    by exact (openNextFile_missing _ _ _ Hq Hd).
  split; [exact Ho|].
  split; [unfold s'; simpl; apply closed_reader|].
  split; [reflexivity|].
  split; [unfold s', closed; rewrite Hr; reflexivity|].
  split; [unfold s', closed; rewrite Hr; reflexivity|].
  split; [unfold s', closed; rewrite Hr; reflexivity|].
  intros s0 Hs0 Hk Hn.
  assert (Hr0 : streamReader_ s0 = Some f) by (by rewrite <- update_reader, Hs0).
  assert (Hb : body s0 = Done None s').
  { rewrite (body_open _ _ Hr0 Hk), Hs0.
    assert (Hrot : rotate s = true).
    { unfold rotate. rewrite Hq, <- Hs0, update_processed. simpl.
      by apply Z.ltb_lt. }
    rewrite Hrot. unfold bind. by rewrite Ho. }
  split; [exact Hb|]. intros fuel. by rewrite prepare_S, Hb.
Qed.

(** *** What every pass of the loop preserves *)

Lemma follows_live s s' : follows s s' -> live s -> live s'.
Proof.
  intros (n & Hs & Hf) Hl. unfold live. rewrite Hs, Hf.
  clear Hs Hf. induction n as [|n IH]; simpl; [exact Hl|]. by apply update_live.
Qed.

Lemma openNextFile_frame s b s' :
  openNextFile_ INIT cfg s = Done b s' ->
  state_ (fiterator_ s') = state_ (fiterator_ s) /\
  future s' = future s /\
  reads s' = reads s.
Proof.
  destruct (queue_ (fiterator_ s)) as [|l q] eqn:Hq.
  - unfold openNextFile_. unfold bind at 1. rewrite closeFile_eq.
    unfold bind, gets. rewrite closed_iter, Hq. discriminate.
  - destruct (disk s !! make_path_data l) as [f|] eqn:Hd.
    + destruct (decide (code (dat_start f) = INIT)) as [Hc|Hc].
      * rewrite (openNextFile_good _ _ _ _ Hq Hd Hc). intros [= <- <-].
        rewrite opened_iter, opened_future, opened_reads.
        split; [reflexivity|]. split; [apply closed_future|apply closed_reads].
      * destruct (openNextFile_bad _ _ _ _ Hq Hd Hc) as [t' ->]. discriminate.
    + rewrite (openNextFile_missing _ _ _ Hq Hd). intros [= <- <-]. simpl.
      rewrite closed_future. split; [reflexivity|]. split; [reflexivity|].
      apply closed_reads.
Qed.

Lemma advance_done u r s' :
  (openNextFile_ INIT cfg ;; ret None) u = Done r s' ->
  r = (None : option (option EventMsgView)) /\
  state_ (fiterator_ s') = state_ (fiterator_ u) /\
  future s' = future u /\
  reads s' = reads u.
Proof.
  unfold bind. destruct (openNextFile_ INIT cfg u) as [b s1| | |] eqn:E; try discriminate.
  intros [= <- <-]. split; [reflexivity|]. exact (openNextFile_frame _ _ _ E).
Qed.

Lemma readOn_done u f r s' :
  streamReader_ u = Some f ->
  readOn u = Done r s' ->
  r ≠ Some None /\
  fiterator_ s' = fiterator_ u /\
  future s' = future u /\
  reads s' = match r with Some (Some e) => e :: reads u | _ => reads u end.
Proof.
  intros Hr. destruct (unread_ f) as [|e rest] eqn:Hu.
  - rewrite (readOn_eof _ _ Hr Hu). intros [= <- <-]. done.
  - rewrite (readOn_some _ _ _ _ Hr Hu). intros [= <- <-]. done.
Qed.

(** Every way a pass of the loop can end normally. *)
Lemma body_done s r s' :
  body s = Done r s' ->
  follows s s' /\
  reads s' = match r with Some (Some e) => e :: reads s | _ => reads s end /\
  (r = Some None -> finished s').
Proof.
  destruct (killed s) eqn:Hk.
  { rewrite (body_killed _ Hk). intros [= <- <-].
    split; [exists 0%nat; simpl; by rewrite closed_iter, closed_future|].
    split; [apply closed_reads|]. intros _. split; [apply closed_reader|].
    left. unfold killed in *. by rewrite closed_iter. }
  destruct (streamReader_ s) as [f|] eqn:Hr.
  { rewrite (body_open _ _ Hr Hk).
    assert (Hr1 : streamReader_ (update_state s) = Some f) by (by rewrite update_reader).
    assert (Hrd : reads (update_state s) = reads s)
      by (unfold reads; by rewrite update_trace).
    destruct (rotate (update_state s)).
    - intros (-> & Hs & Hf & Hrs)%advance_done.
      split; [by exists 1%nat|]. split; [congruence|done].
    - intros (Hne & Hit & Hf & Hrs)%(readOn_done _ f); [|done].
      split; [exists 1%nat; simpl; by rewrite Hit|].
      split; [by rewrite Hrs, Hrd|done]. }
  set (u1 := update_state s). set (u2 := update_state u1). set (u3 := update_state u2).
  assert (Hrd1 : reads u1 = reads s) by (unfold reads, u1; by rewrite update_trace).
  assert (Hrd2 : reads u2 = reads s) by (unfold reads, u2; by rewrite update_trace).
  assert (Hrd3 : reads u3 = reads s) by (unfold reads, u3; by rewrite update_trace).
  destruct (decide (queue_ (fiterator_ u2) = [])) as [Hq2|Hq2].
  - destruct (decide (state_ (fiterator_ u1) = EOR)) as [Hst|Hst].
    + assert (Hq1 : queue_ (fiterator_ u1) = []).
      { unfold u2 in Hq2. by rewrite (update_EOR _ Hst) in Hq2. }
      rewrite (body_null_finished _ Hr Hk Hq1 Hst). intros [= <- <-].
      split; [by exists 1%nat|]. split; [exact Hrd1|]. intros _.
      split; [unfold u1; by rewrite update_reader|]. by right.
    + rewrite (body_null_wait _ Hr Hk Hst Hq2). fold u1 u2 u3.
      destruct (rotate u3).
      * intros (-> & Hs & Hf & Hrs)%advance_done.
        split; [by exists 3%nat|]. split; [congruence|done].
      * unfold bind, delay_, modify. intros [= <- <-].
        split; [by exists 3%nat|]. split; [exact Hrd3|done].
  - rewrite (body_null_advance _ Hr Hk Hq2). fold u1 u2.
    intros (-> & Hs & Hf & Hrs)%advance_done.
    split; [by exists 2%nat|]. split; [congruence|done].
Qed.

Lemma finished_not_live s : finished s -> ¬ live s.
Proof.
  intros [_ [Hk|[_ Hst]]] Hl.
  - rewrite (live_not_killed _ Hl) in Hk. discriminate.
  - destruct Hl as [Hl _]. congruence.
Qed.

Lemma finished_stays s : finished s -> body s = Done (Some None) s.
Proof.
  intros [Hr H]. destruct (killed s) eqn:Hk.
  - rewrite (body_killed _ Hk). by rewrite closed_null.
  - destruct H as [H|[Hq Hst]]; [discriminate|].
    rewrite <- (update_EOR _ Hst) at 2.
    apply body_null_finished; rewrite ?(update_EOR _ Hst); done.
Qed.

(** *** [prepareNextEvent] as a whole *)

Lemma prepare_done fuel s r s' :
  prepareNextEvent INIT cfg fuel s = Done r s' ->
  reads s' = match r with Some e => e :: reads s | None => reads s end /\
  (r = None -> finished s') /\
  (live s -> live s' /\ r ≠ None).
Proof.
  revert s. induction fuel as [|fuel IH]; intros s; [discriminate|].
  rewrite prepare_S. destruct (body s) as [[v|] s1| | |] eqn:Hb; try discriminate.
  - intros [= -> ->]. destruct (body_done _ _ _ Hb) as (Hfol & Hrd & Hfin).
    split; [by destruct r|]. split; [intros ->; by apply Hfin|].
    intros Hl. pose proof (follows_live _ _ Hfol Hl) as Hl'. split; [exact Hl'|].
    intros ->. apply (finished_not_live s'); [by apply Hfin|exact Hl'].
  - intros H. destruct (body_done _ _ _ Hb) as (Hfol & Hrd & _).
    destruct (IH _ H) as (Hrd' & Hfin' & Hl').
    split; [by rewrite Hrd', Hrd|]. split; [exact Hfin'|].
    intros Hl. apply Hl'. by apply (follows_live s).
Qed.

Lemma finished_prepare fuel s :
  finished s -> prepareNextEvent INIT cfg (S fuel) s = Done None s.
Proof. intros H. by rewrite prepare_S, (finished_stays _ H). Qed.

(** C6: once [checkNextEvent] has returned false, or [prepareNextEvent]
    the null pointer, no file is open and every later call returns the
    same again, leaving the state as it is: nothing is opened, scanned or
    read any more. *)
Theorem end_of_stream_is_permanent fuel s s' :
  checkNextEvent INIT cfg fuel s = Done false s' \/
  prepareNextEvent INIT cfg fuel s = Done None s' ->
  streamReader_ s' = None /\
  forall fuel',
    checkNextEvent INIT cfg (S fuel') s' = Done false s' /\
    prepareNextEvent INIT cfg (S fuel') s' = Done None s'.
Proof.
  intros H.
  assert (Hp : prepareNextEvent INIT cfg fuel s = Done None s').
  { destruct H as [H|H]; [|exact H]. revert H. unfold checkNextEvent, bind at 1.
    destruct (prepareNextEvent INIT cfg fuel s) as [[e|] s1| | |]; try discriminate.
    - run. destruct (streamReader_ s1) as [f|]; [|discriminate]. simpl.
      destruct (newHeader_ f); simpl; [|discriminate].
      case_bool_decide; discriminate.
    - by intros [= <-]. }
  destruct (prepare_done _ _ _ _ Hp) as (_ & Hfin & _).
  specialize (Hfin eq_refl). split; [apply Hfin|]. intros fuel'.
  pose proof (finished_prepare fuel' _ Hfin) as Hp'.
  split; [|exact Hp']. unfold checkNextEvent, bind. by rewrite Hp'.
Qed.

(** *** The loop of [skip] *)

Lemma kept_cons e es :
  kept (e :: es) = if skipIt cfg e then kept es else kept es + 1.
Proof.
  unfold kept. rewrite filter_cons.
  destruct (skipIt cfg e); case_decide; try congruence; simpl; lia.
Qed.

Lemma kept_app es1 es2 : kept (es1 ++ es2) = kept es1 + kept es2.
Proof. unfold kept. rewrite filter_app, length_app. lia. Qed.

Lemma kept_nonneg es : 0 <= kept es.
Proof. unfold kept. lia. Qed.

Lemma skip_loop_exit fuel pf n s : skip_loop INIT cfg fuel pf n n s = Done tt s.
Proof. destruct fuel; simpl; by rewrite bool_decide_eq_true_2. Qed.

Lemma skip_loop_step fuel pf i n s :
  i ≠ n ->
  skip_loop INIT cfg (S fuel) pf i n s =
    match prepareNextEvent INIT cfg pf s with
    | Done None s1 => Done tt s1
    | Done (Some e) s1 =>
        (i1 <- (if skipIt cfg e then int_pred i else ret i) ;;
         i2 <- int_succ i1 ;;
         skip_loop INIT cfg fuel pf i2 n) s1
    | Thrown e s1 => Thrown e s1
    | Undefined => Undefined
    | OutOfFuel => OutOfFuel
    end.
Proof.
  intros Hi. simpl. rewrite bool_decide_eq_false_2 by done. unfold bind at 1.
  destruct (prepareNextEvent INIT cfg pf s) as [[e|] s1| | |]; reflexivity.
Qed.

(** After one event the counter is where it was (the event is one the
    predicate filters) or one further. *)
Lemma counter_step e i (k : Z -> M unit) s o :
  (i1 <- (if skipIt cfg e then int_pred i else ret i) ;; i2 <- int_succ i1 ;; k i2) s = o ->
  o = Undefined \/ o = k (if skipIt cfg e then i else i + 1) s.
Proof.
  intros <-. unfold bind, int_pred, int_succ, ret, undefined.
  destruct (skipIt cfg e).
  - case_bool_decide; [by left|]. case_bool_decide; [by left|].
    right. f_equal. lia.
  - case_bool_decide; [by left|]. by right.
Qed.

Lemma skip_loop_counts fuel pf n : forall i s s',
  i <= n ->
  skip_loop INIT cfg fuel pf i n s = Done tt s' ->
  exists new,
    reads s' = new ++ reads s /\
    ((kept new = n - i /\
      ((i = n /\ new = []) \/ exists e rest, new = e :: rest /\ skipIt cfg e = false)) \/
     (finished s' /\ kept new < n - i)).
Proof.
  induction fuel as [|fuel IH]; intros i s s' Hi.
  - simpl. case_bool_decide as E; [|discriminate]. intros [= <-].
    exists []. split; [reflexivity|]. left. split; [unfold kept; simpl; lia|by left].
  - destruct (decide (i = n)) as [->|Hne].
    { rewrite skip_loop_exit. intros [= <-].
      exists []. split; [reflexivity|]. left. split; [unfold kept; simpl; lia|by left]. }
    rewrite (skip_loop_step _ _ _ _ _ Hne).
    destruct (prepareNextEvent INIT cfg pf s) as [[e|] s1| | |] eqn:Hp; try discriminate.
    + destruct (prepare_done _ _ _ _ Hp) as (Hrd & _ & _).
      intros H. apply counter_step in H as [H|H]; [discriminate|]. symmetry in H.
      apply IH in H; [|destruct (skipIt cfg e); lia].
      destruct H as (new & Hnew & Hcase).
      exists (new ++ [e]). split; [by rewrite Hnew, Hrd, <- app_assoc|].
      rewrite kept_app, kept_cons. change (kept []) with 0.
      destruct Hcase as [[Hk Hlast]|[Hfin Hk]].
      * left. split; [destruct (skipIt cfg e); lia|]. right.
        destruct Hlast as [[Hin ->]|(e0 & rest & -> & He0)].
        -- destruct (skipIt cfg e) eqn:Hsk; [lia|]. by exists e, [].
        -- by exists e0, (rest ++ [e]).
      * right. split; [exact Hfin|]. destruct (skipIt cfg e); lia.
    + destruct (prepare_done _ _ _ _ Hp) as (Hrd & Hfin & _).
      intros [= <-]. exists []. split; [exact Hrd|]. right.
      split; [by apply Hfin|]. unfold kept; simpl; lia.
Qed.

(** With a file open, the processing not killed by the end of the run and
    the counter not above the threshold, [prepareNextEvent] hands out the
    next record of the open file. *)
Lemma prepare_next pf s f e rest :
  streamReader_ s = Some f ->
  unread_ f = e :: rest ->
  flagEndOfRunKills_ cfg = false ->
  processedEventPerLs_ s <= minEventsPerLs_ cfg ->
  prepareNextEvent INIT cfg (S pf) s = Done (Some e) (advance f e rest (update_state s)).
Proof.
  intros Hr Hu Hk Hn. rewrite prepare_S.
  rewrite (body_open _ _ Hr) by (unfold killed; by rewrite Hk).
  assert (Hrot : rotate (update_state s) = false).
  { unfold rotate. rewrite update_processed.
    apply andb_false_iff. right. by apply Z.ltb_ge. }
  rewrite Hrot. rewrite (readOn_some _ f e rest); [reflexivity| |exact Hu].
  by rewrite update_reader.
Qed.

Lemma skip_loop_prefix pf n : forall es s f i pre,
  streamReader_ s = Some f ->
  unread_ f = es ->
  flagEndOfRunKills_ cfg = false ->
  processedEventPerLs_ s <= minEventsPerLs_ cfg ->
  0 <= i <= n -> n <= INT_MAX ->
  skipped_prefix (Z.to_nat (n - i)) es = Some pre ->
  forall extra, exists s',
    skip_loop INIT cfg (length pre + extra) (S pf) i n s = Done tt s' /\
    reads s' = rev pre ++ reads s /\
    exists f', streamReader_ s' = Some f' /\ unread_ f' = drop (length pre) es.
Proof.
  induction es as [|e es IH]; intros s f i pre Hr Hu Hk Hn Hi Hmax Hpre extra.
  - destruct (Z.to_nat (n - i)) eqn:E; [|discriminate]. injection Hpre as <-.
    assert (i = n) as -> by lia. rewrite skip_loop_exit.
    exists s. split; [reflexivity|]. split; [reflexivity|]. by exists f.
  - destruct (Z.to_nat (n - i)) as [|k] eqn:E.
    { injection Hpre as <-. assert (i = n) as -> by lia. rewrite skip_loop_exit.
      exists s. split; [reflexivity|]. split; [reflexivity|]. by exists f. }
    simpl in Hpre.
    assert (Hne : i ≠ n) by lia.
    set (s1 := advance f e es (update_state s)).
    assert (Hr1 : streamReader_ s1 =
                  Some (mkSIF (currentFileName_ f) (startMsg_ f) es (Some e) (newHeader_ f)))
      by reflexivity.
    assert (Hn1 : processedEventPerLs_ s1 <= minEventsPerLs_ cfg)
      by (unfold s1; simpl; by rewrite update_processed).
    assert (Hrd1 : reads s1 = e :: reads s)
      by (unfold s1, reads; simpl; by rewrite update_trace).
    destruct (skipIt cfg e) eqn:Hsk.
    + destruct (skipped_prefix (S k) es) as [pre'|] eqn:Hp'; [|discriminate].
      injection Hpre as <-.
      assert (Hp1 : skipped_prefix (Z.to_nat (n - i)) es = Some pre') by (by rewrite E).
      destruct (IH s1 _ i pre' Hr1 eq_refl Hk Hn1 Hi Hmax Hp1 extra)
        as (s' & Hs' & Hrd & Hf').
      exists s'. split; [|split].
      * simpl length. change (S (length pre') + extra)%nat
          with (S (length pre' + extra)).
        rewrite (skip_loop_step _ _ _ _ _ Hne), (prepare_next _ _ _ _ _ Hr Hu Hk Hn).
        fold s1. unfold bind, int_pred, int_succ, ret. rewrite Hsk.
        rewrite bool_decide_eq_false_2 by (unfold INT_MIN; lia).
        rewrite bool_decide_eq_false_2 by (unfold INT_MAX in *; lia).
        replace (i - 1 + 1) with i by lia. exact Hs'.
      * rewrite Hrd, Hrd1. simpl. by rewrite <- app_assoc.
      * exact Hf'.
    + destruct (skipped_prefix k es) as [pre'|] eqn:Hp'; [|discriminate].
      injection Hpre as <-.
      assert (Hp1 : skipped_prefix (Z.to_nat (n - (i + 1))) es = Some pre')
        by (by replace (Z.to_nat (n - (i + 1))) with k by lia).
      assert (Hi1 : 0 <= i + 1 <= n) by lia.
      destruct (IH s1 _ (i + 1) pre' Hr1 eq_refl Hk Hn1 Hi1 Hmax Hp1 extra)
        as (s' & Hs' & Hrd & Hf').
      exists s'. split; [|split].
      * simpl length. change (S (length pre') + extra)%nat
          with (S (length pre' + extra)).
        rewrite (skip_loop_step _ _ _ _ _ Hne), (prepare_next _ _ _ _ _ Hr Hu Hk Hn).
        fold s1. unfold bind, int_succ, ret. rewrite Hsk.
        rewrite bool_decide_eq_false_2 by (unfold INT_MAX in *; lia). exact Hs'.
      * rewrite Hrd, Hrd1. simpl. by rewrite <- app_assoc.
      * exact Hf'.
Qed.

(** C4: for [0 <= n], when [skip(n)] returns, the records it has read
    since the call ([new], newest first) hold exactly [n] events that the
    skip predicate lets through, the last one read being such an event, or
    else the end of the stream was reached with fewer than [n] of them: an
    event the predicate filters is read but not counted.  And [skip(n)]
    does return when the open file holds [n] such events: it reads the
    shortest run of records that contains them, and no more. *)
Theorem skip_counts_only_unfiltered_events n :
  0 <= n <= INT_MAX ->
  (forall fuel pf s s',
     skip INIT cfg fuel pf n s = Done tt s' ->
     exists new,
       reads s' = new ++ reads s /\
       ((kept new = n /\
         ((n = 0 /\ new = []) \/
          exists e rest, new = e :: rest /\ skipIt cfg e = false)) \/
        (finished s' /\ kept new < n))) /\
  (forall s f pre,
     streamReader_ s = Some f ->
     flagEndOfRunKills_ cfg = false ->
     processedEventPerLs_ s <= minEventsPerLs_ cfg ->
     skipped_prefix (Z.to_nat n) (unread_ f) = Some pre ->
     forall extra pf, exists s',
       skip INIT cfg (length pre + extra) (S pf) n s = Done tt s' /\
       reads s' = rev pre ++ reads s /\
       exists f', streamReader_ s' = Some f' /\
                  unread_ f' = drop (length pre) (unread_ f)).
Proof.
  intros [Hn Hmax]. split.
  - intros fuel pf s s' H. unfold skip in H.
    apply skip_loop_counts in H; [|exact Hn].
    destruct H as (new & Hnew & Hcase). exists new. split; [exact Hnew|].
    rewrite Z.sub_0_r in Hcase. destruct Hcase as [[Hk [[<- ->]|H]]|H]; auto.
  - intros s f pre Hr Hk Hp Hpre extra pf. unfold skip.
    apply (skip_loop_prefix pf n (unread_ f) s f 0 pre); try done; try lia.
    by rewrite Z.sub_0_r.
Qed.

Lemma skip_loop_negative pf n fuel : forall i s s',
  n < 0 <= i ->
  skip_loop INIT cfg fuel pf i n s = Done tt s' ->
  finished s' /\ exists s0, prepareNextEvent INIT cfg pf s0 = Done None s'.
Proof.
  induction fuel as [|fuel IH]; intros i s s' Hi.
  - simpl. rewrite bool_decide_eq_false_2 by lia. discriminate.
  - rewrite skip_loop_step by lia.
    destruct (prepareNextEvent INIT cfg pf s) as [[e|] s1| | |] eqn:Hp; try discriminate.
    + intros H. apply counter_step in H as [H|H]; [discriminate|]. symmetry in H.
      apply IH in H; [exact H|]. destruct (skipIt cfg e); lia.
    + intros [= <-]. destruct (prepare_done _ _ _ _ Hp) as (_ & Hfin & _).
      split; [by apply Hfin|]. by exists s.
Qed.

Lemma skip_loop_live pf n fuel : forall i s s',
  n < 0 <= i ->
  live s ->
  skip_loop INIT cfg fuel pf i n s ≠ Done tt s'.
Proof.
  induction fuel as [|fuel IH]; intros i s s' Hi Hl.
  - simpl. rewrite bool_decide_eq_false_2 by lia. discriminate.
  - rewrite skip_loop_step by lia.
    destruct (prepareNextEvent INIT cfg pf s) as [[e|] s1| | |] eqn:Hp; try discriminate.
    + destruct (prepare_done _ _ _ _ Hp) as (_ & _ & Hl1).
      destruct (Hl1 Hl) as [Hl' _].
      intros H. apply counter_step in H as [H|H]; [discriminate|]. symmetry in H.
      revert H. apply IH; [destruct (skipIt cfg e); lia|exact Hl'].
    + destruct (prepare_done _ _ _ _ Hp) as (_ & _ & Hl1).
      destruct (Hl1 Hl) as [_ Hne]. done.
Qed.

Lemma skip_loop_consumes pf n : forall es s f i,
  n < 0 <= i ->
  streamReader_ s = Some f ->
  unread_ f = es ->
  flagEndOfRunKills_ cfg = false ->
  processedEventPerLs_ s <= minEventsPerLs_ cfg ->
  i + Z.of_nat (length es) <= INT_MAX ->
  forall extra, exists s1,
    skip_loop INIT cfg (length es + extra) (S pf) i n s
      = skip_loop INIT cfg extra (S pf) (i + kept es) n s1 /\
    reads s1 = rev es ++ reads s /\
    exists f1, streamReader_ s1 = Some f1 /\ unread_ f1 = [].
Proof.
  induction es as [|e es IH]; intros s f i Hi Hr Hu Hk Hn Hmax extra.
  - exists s. change (kept []) with 0. rewrite Z.add_0_r.
    split; [reflexivity|]. split; [reflexivity|]. by exists f.
  - set (s1 := advance f e es (update_state s)).
    assert (Hr1 : streamReader_ s1 =
                  Some (mkSIF (currentFileName_ f) (startMsg_ f) es (Some e) (newHeader_ f)))
      by reflexivity.
    assert (Hn1 : processedEventPerLs_ s1 <= minEventsPerLs_ cfg)
      by (unfold s1; simpl; by rewrite update_processed).
    assert (Hrd1 : reads s1 = e :: reads s)
      by (unfold s1, reads; simpl; by rewrite update_trace).
    simpl length in *. rewrite Nat2Z.inj_succ in Hmax.
    change (S (length es) + extra)%nat with (S (length es + extra)).
    rewrite skip_loop_step by lia.
    rewrite (prepare_next _ _ _ _ _ Hr Hu Hk Hn). fold s1.
    rewrite kept_cons. unfold bind, int_pred, int_succ, ret.
    destruct (skipIt cfg e) eqn:Hsk.
    + rewrite bool_decide_eq_false_2 by (unfold INT_MIN; lia).
      rewrite bool_decide_eq_false_2 by (unfold INT_MAX in *; lia).
      replace (i - 1 + 1) with i by lia.
      destruct (IH s1 _ i Hi Hr1 eq_refl Hk Hn1 ltac:(lia) extra) as (s2 & Hs2 & Hrd & Hf).
      exists s2. split; [exact Hs2|]. split; [|exact Hf].
      rewrite Hrd, Hrd1. simpl. by rewrite <- app_assoc.
    + rewrite bool_decide_eq_false_2 by (unfold INT_MAX in *; lia).
      destruct (IH s1 _ (i + 1) ltac:(lia) Hr1 eq_refl Hk Hn1 ltac:(lia) extra)
        as (s2 & Hs2 & Hrd & Hf).
      exists s2. replace (i + (kept es + 1)) with (i + 1 + kept es) by lia.
      split; [exact Hs2|]. split; [|exact Hf].
      rewrite Hrd, Hrd1. simpl. by rewrite <- app_assoc.
Qed.

(** *** The start-up loops of [reset_] *)

Lemma hasNext_quiet s :
  future s = [] ->
  FileIterator.hasNext s = Done (negb (bool_decide (queue_ (fiterator_ s) = []))) s.
Proof. intros H. unfold FileIterator.hasNext. by rewrite (update_quiet _ H). Qed.

Section FastForward.

(** The last entry of the backlog and its data file. *)
Variable l : LumiEntry.
Variable fl : DatFile.

Lemma backlog_pop l1 q s :
  backlog l fl (l1 :: q) s ->
  exists b s1, openNextFile_ INIT cfg s = Done b s1 /\ backlog l fl q s1 /\ reads s1 = reads s.
Proof.
  intros (Hq & Hnin & Hfut & Hinit & Hl).
  apply not_elem_of_cons in Hnin as [Hne Hnin]. simpl in Hq.
  destruct (disk s !! make_path_data l1) as [f|] eqn:Hd.
  - rewrite (openNextFile_good _ _ _ _ Hq Hd (Hinit _ _ Hd)).
    eexists _, _. split; [reflexivity|]. split.
    + split; [by rewrite opened_iter|]. split; [exact Hnin|].
      split; [by rewrite opened_future; simpl; rewrite closed_future|].
      rewrite opened_disk. simpl. rewrite closed_disk.
      destruct (flagDeleteDatFiles_ cfg); [|by split].
      split.
      * intros p f' [_ H]%lookup_delete_Some. by apply (Hinit p).
      * rewrite lookup_delete_ne by done. exact Hl.
    + rewrite opened_reads. apply closed_reads.
  - rewrite (openNextFile_missing _ _ _ Hq Hd).
    eexists _, _. split; [reflexivity|]. split.
    + split; [reflexivity|]. split; [exact Hnin|]. simpl.
      rewrite closed_future, closed_disk. done.
    + apply closed_reads.
Qed.

Lemma backlog_last s :
  backlog l fl [] s ->
  exists s1, openNextFile_ INIT cfg s = Done true s1 /\ arrived l fl s1 /\ reads s1 = reads s.
Proof.
  intros (Hq & _ & Hfut & Hinit & Hl). simpl in Hq.
  rewrite (openNextFile_good _ _ _ _ Hq Hl (Hinit _ _ Hl)).
  eexists. split; [reflexivity|]. split.
  - split; [apply opened_reader|]. split; [by rewrite opened_iter|].
    rewrite opened_future. simpl. by rewrite closed_future.
  - rewrite opened_reads. apply closed_reads.
Qed.

Lemma backlog_hasNext q s : backlog l fl q s -> FileIterator.hasNext s = Done true s.
Proof.
  intros (Hq & _ & Hfut & _). rewrite (hasNext_quiet _ Hfut), Hq.
  rewrite bool_decide_eq_false_2; [reflexivity|]. by destruct q.
Qed.

Lemma arrived_forward fuel s : arrived l fl s -> reset_forward INIT cfg (S fuel) s = Done tt s.
Proof.
  intros (_ & Hq & Hfut). simpl. unfold bind.
  rewrite (hasNext_quiet _ Hfut), Hq. reflexivity.
Qed.

Lemma reset_forward_backlog : forall q s fuel,
  backlog l fl q s ->
  (length q + 2 <= fuel)%nat ->
  exists s', reset_forward INIT cfg fuel s = Done tt s' /\ arrived l fl s' /\ reads s' = reads s.
Proof.
  induction q as [|l1 q IH]; intros s fuel Hb Hfuel.
  - destruct fuel as [|[|fuel]]; [simpl in Hfuel; lia..|].
    destruct (backlog_last _ Hb) as (s1 & Ho & Ha & Hrd).
    exists s1. split; [|by split].
    change (reset_forward INIT cfg (S (S fuel)) s)
      with ((hn <- FileIterator.hasNext ;;
             if (hn : bool) then openNextFile_ INIT cfg ;; reset_forward INIT cfg (S fuel)
             else ret tt) s).
    unfold bind. rewrite (backlog_hasNext _ _ Hb), Ho. by apply arrived_forward.
  - destruct fuel as [|fuel]; [simpl in Hfuel; lia|].
    destruct (backlog_pop _ _ _ Hb) as (b & s1 & Ho & Hb1 & Hrd).
    destruct (IH s1 fuel Hb1) as (s' & Hs' & Ha & Hrd'); [simpl in Hfuel; lia|].
    exists s'. split; [|split; [exact Ha|congruence]].
    simpl. unfold bind. rewrite (backlog_hasNext _ _ Hb), Ho. exact Hs'.
Qed.

Lemma reset_first_backlog : forall q s fuel,
  backlog l fl q s ->
  (length q + 1 <= fuel)%nat ->
  exists s', reset_first INIT cfg fuel s = Done tt s' /\
             reads s' = reads s /\
             (arrived l fl s' \/ exists q', backlog l fl q' s' /\ (length q' <= length q)%nat).
Proof.
  induction q as [|l1 q IH]; intros s fuel Hb Hfuel.
  - destruct fuel as [|fuel]; [simpl in Hfuel; lia|].
    destruct (backlog_last _ Hb) as (s1 & Ho & Ha & Hrd).
    exists s1. split; [|split; [exact Hrd|by left]].
    simpl. unfold bind. rewrite (backlog_hasNext _ _ Hb). simpl. by rewrite Ho.
  - destruct fuel as [|fuel]; [simpl in Hfuel; lia|].
    destruct (backlog_pop _ _ _ Hb) as (b & s1 & Ho & Hb1 & Hrd).
    destruct b.
    + exists s1. split; [|split; [exact Hrd|right; exists q; split; [exact Hb1|simpl; lia]]].
      simpl. unfold bind. rewrite (backlog_hasNext _ _ Hb). simpl. by rewrite Ho.
    + destruct (IH s1 fuel Hb1) as (s' & Hs' & Hrd' & Hcase); [simpl in Hfuel; lia|].
      exists s'. split; [|split; [congruence|]].
      * simpl. unfold bind. rewrite (backlog_hasNext _ _ Hb). simpl. by rewrite Ho.
      * destruct Hcase as [Ha|(q' & Hq' & Hlen)]; [by left|].
        right. exists q'. split; [exact Hq'|simpl; lia].
Qed.

End FastForward.

(** With [deleteDatFiles] set, [openFile_] leaves the file it has just
    opened unlinked, with all its event records still to be read. *)
Lemma openFile_unlinks_before_reading s p f :
  flagDeleteDatFiles_ cfg = true ->
  disk s !! p = Some f ->
  code (dat_start f) = INIT ->
  exists s',
    openFile_ INIT cfg p s = Done tt s' /\
    disk s' !! p = None /\
    streamReader_ s' = Some (handle p f) /\
    unread_ (handle p f) = dat_events f /\
    trace s' = ObsUnlink p :: ObsMerge (dat_start f) false :: ObsOpen p :: trace s.
Proof.
  intros Hflag Hd Hc. exists (opened p f s).
  split; [exact (openFile_good _ _ _ Hd Hc)|].
  split; [rewrite opened_disk, Hflag; apply lookup_delete_eq|].
  split; [apply opened_reader|]. split; [reflexivity|].
  unfold opened. rewrite Hflag. reflexivity.
Qed.

(** C5: with [skipFirstLumis] set and a backlog of entries found when the
    reader attaches to the directory, [reset_] returns with the data file
    of the last entry of the backlog open, none of its records read, and
    nothing queued; no record of any file has been read on the way. *)
Theorem skipFirstLumis_fast_forwards s q l fl fuel :
  flagSkipFirstLumis_ cfg = true ->
  let s0 := update_state (set_fiterator (mkIter [] OPEN) s) in
  queue_ (fiterator_ s0) = q ++ [l] ->
  make_path_data l ∉ map make_path_data q ->
  future s0 = [] ->
  (forall p f, disk s0 !! p = Some f -> code (dat_start f) = INIT) ->
  disk s0 !! make_path_data l = Some fl ->
  (length q + 2 <= fuel)%nat ->
  exists s',
    reset_ INIT cfg fuel s = Done tt s' /\
    streamReader_ s' = Some (handle (make_path_data l) fl) /\
    unread_ (handle (make_path_data l) fl) = dat_events fl /\
    queue_ (fiterator_ s') = [] /\
    reads s' = reads s.
Proof.
  intros Hflag s0 Hq Hnin Hfut Hinit Hl Hfuel.
  assert (Hb : backlog l fl q s0) by done.
  assert (Hrd0 : reads s0 = reads s) by (unfold s0, reads; by rewrite update_trace).
  destruct (reset_first_backlog l fl q s0 fuel Hb) as (s1 & Hs1 & Hrd1 & Hcase); [lia|].
  assert (Hfw : exists s', reset_forward INIT cfg fuel s1 = Done tt s' /\
                           arrived l fl s' /\ reads s' = reads s1).
  { destruct Hcase as [Ha|(q' & Hq' & Hlen)].
    - exists s1. destruct fuel as [|fuel]; [lia|].
      split; [by apply (arrived_forward l fl)|done].
    - apply (reset_forward_backlog l fl q'); [exact Hq'|lia]. }
  destruct Hfw as (s' & Hs' & (Hr & Hq' & _) & Hrd').
  exists s'. split; [|split; [exact Hr|split; [reflexivity|split; [exact Hq'|congruence]]]].
  unfold reset_, bind, FileIterator.initialise, modify. fold s0.
  by rewrite Hs1, Hflag.
Qed.

(** *** Every way [openNextFile_] can end *)

Lemma openNextFile_popped s l q :
  queue_ (fiterator_ s) = l :: q ->
  openNextFile_ INIT cfg s =
    match disk s !! make_path_data l with
    | None => Done false (emit (ObsMissing (make_path_data l)) (popped q s))
    | Some f =>
        if bool_decide (code (dat_start f) = INIT)
        then Done true (opened (make_path_data l) f (popped q s))
        else Thrown (wrongMessageType (code (dat_start f)))
               (opening (make_path_data l) f (popped q s))
    end.
Proof.
  intros Hq. destruct (disk s !! make_path_data l) as [f|] eqn:Hd.
  - case_bool_decide as Hc.
    + exact (openNextFile_good _ _ _ _ Hq Hd Hc).
    + rewrite (openNextFile_present _ _ _ _ Hq Hd). unfold bind.
      rewrite (openFile_bad _ _ f) by (simpl; rewrite ?closed_disk; done).
      reflexivity.
  - exact (openNextFile_missing _ _ _ Hq Hd).
Qed.

Lemma openNextFile_empty s :
  queue_ (fiterator_ s) = [] -> openNextFile_ INIT cfg s = Undefined.
Proof.
  intros Hq. unfold openNextFile_. unfold bind at 1. rewrite closeFile_eq.
  unfold bind, gets. by rewrite closed_iter, Hq.
Qed.

Lemma rotate_queue s : rotate s = true -> queue_ (fiterator_ s) ≠ [].
Proof.
  unfold rotate. intros [H _]%andb_prop. by apply negb_true_iff, bool_decide_eq_false in H.
Qed.

(** Where a pass of the loop calls [openNextFile_], something is queued. *)
Lemma body_shape s :
  (exists s1, body s = Done (Some None) s1 /\ finished s1) \/
  (exists u, queue_ (fiterator_ u) ≠ [] /\
             (exists n, u = Nat.iter n update_state s) /\
             body s = (openNextFile_ INIT cfg ;; ret None) u) \/
  (exists f, streamReader_ s = Some f /\ body s = readOn (update_state s)) \/
  (streamReader_ s = None /\
   body s = Done None (emit ObsDelay (update_state (update_state (update_state s))))).
Proof.
  destruct (killed s) eqn:Hk.
  { left. exists (closed s). split; [by apply body_killed|].
    split; [apply closed_reader|]. left. unfold killed in *. by rewrite closed_iter. }
  destruct (streamReader_ s) as [f|] eqn:Hr.
  { rewrite (body_open _ _ Hr Hk). destruct (rotate (update_state s)) eqn:Hrot.
    - right; left. exists (update_state s). split; [by apply rotate_queue|].
      split; [by exists 1%nat|reflexivity].
    - right; right; left. by exists f. }
  set (u1 := update_state s). set (u2 := update_state u1). set (u3 := update_state u2).
  destruct (decide (queue_ (fiterator_ u2) = [])) as [Hq2|Hq2].
  - destruct (decide (state_ (fiterator_ u1) = EOR)) as [Hst|Hst].
    + assert (Hq1 : queue_ (fiterator_ u1) = []).
      { unfold u2 in Hq2. by rewrite (update_EOR _ Hst) in Hq2. }
      left. exists u1. split; [by apply body_null_finished|].
      split; [unfold u1; by rewrite update_reader|by right].
    + rewrite (body_null_wait _ Hr Hk Hst Hq2). fold u1 u2 u3.
      destruct (rotate u3) eqn:Hrot.
      * right; left. exists u3. split; [by apply rotate_queue|].
        split; [by exists 3%nat|reflexivity].
      * right; right; right. split; [reflexivity|]. reflexivity.
  - right; left. exists u2. split; [exact Hq2|]. split; [by exists 2%nat|].
    by apply body_null_advance.
Qed.

(** *** Outcomes that are neither undefined nor an unexpected exception *)

Lemma sound_bind {A B} (m : M A) (k : A -> M B) s :
  sound (m s) ->
  (forall a s', m s = Done a s' -> sound (k a s')) ->
  sound (bind m k s).
Proof.
  unfold bind. intros Hm Hk. destruct (m s) as [a s'|e s'| |]; try done. by apply Hk.
Qed.

Lemma openNextFile_sound s :
  queue_ (fiterator_ s) ≠ [] -> sound (openNextFile_ INIT cfg s).
Proof.
  destruct (queue_ (fiterator_ s)) as [|l q] eqn:Hq; [done|]. intros _.
  rewrite (openNextFile_popped _ _ _ Hq).
  destruct (disk s !! make_path_data l) as [f|]; [|done].
  case_bool_decide; [done|]. simpl. eauto.
Qed.

Lemma readOn_sound s f : streamReader_ s = Some f -> sound (readOn s).
Proof.
  intros Hr. destruct (unread_ f) as [|e rest] eqn:Hu.
  - by rewrite (readOn_eof _ _ Hr Hu).
  - by rewrite (readOn_some _ _ _ _ Hr Hu).
Qed.

Lemma body_sound s : sound (body s).
Proof.
  destruct (body_shape s) as [(s1 & -> & _)|[(u & Hq & _ & ->)|[(f & Hr & ->)|[_ ->]]]].
  - done.
  - apply sound_bind; [by apply openNextFile_sound|done].
  - apply (readOn_sound _ f). by rewrite update_reader.
  - done.
Qed.

Lemma prepare_sound fuel s : sound (prepareNextEvent INIT cfg fuel s).
Proof.
  revert s. induction fuel as [|fuel IH]; intros s; [done|].
  rewrite prepare_S. pose proof (body_sound s) as Hb.
  destruct (body s) as [[v|] s1|e s1| |]; first [done|apply IH].
Qed.

(** An event is handed out by the open file, which stays open. *)
Lemma body_event s e s' :
  body s = Done (Some (Some e)) s' ->
  exists f rest,
    streamReader_ s = Some f /\
    unread_ f = e :: rest /\
    s' = advance f e rest (update_state s).
Proof.
  destruct (body_shape s) as [(s1 & -> & _)|[(u & Hq & _ & ->)|[(f & Hr & ->)|[_ ->]]]].
  - discriminate.
  - intros (H & _)%advance_done. discriminate.
  - assert (Hr1 : streamReader_ (update_state s) = Some f) by (by rewrite update_reader).
    destruct (unread_ f) as [|e' rest] eqn:Hu.
    + rewrite (readOn_eof _ _ Hr1 Hu). discriminate.
    + rewrite (readOn_some _ _ _ _ Hr1 Hu). intros [= <- <-]. by exists f, rest.
  - discriminate.
Qed.

Lemma prepare_event fuel s e s' :
  prepareNextEvent INIT cfg fuel s = Done (Some e) s' ->
  exists s0 f rest,
    streamReader_ s0 = Some f /\
    unread_ f = e :: rest /\
    s' = advance f e rest s0.
Proof.
  revert s. induction fuel as [|fuel IH]; intros s; [discriminate|].
  rewrite prepare_S. destruct (body s) as [[v|] s1| | |] eqn:Hb; try discriminate.
  - intros [= -> ->]. destruct (body_event _ _ _ Hb) as (f & rest & Hr & Hu & ->).
    exists (update_state s), f, rest. by rewrite update_reader.
  - apply IH.
Qed.

Lemma check_sound fuel s : sound (checkNextEvent INIT cfg fuel s).
Proof.
  unfold checkNextEvent. apply sound_bind; [apply prepare_sound|].
  intros [e|] s1 Hp; [|done].
  destruct (prepare_event _ _ _ _ Hp) as (s0 & f & rest & _ & _ & ->).
  run. destruct (newHeader_ f); simpl; [|done].
  case_bool_decide; simpl; [eauto|done].
Qed.

Lemma reset_first_sound fuel s : sound (reset_first INIT cfg fuel s).
Proof.
  revert s. induction fuel as [|fuel IH]; intros s; [done|].
  simpl. unfold bind at 1, FileIterator.hasNext.
  case_bool_decide as Hq; simpl.
  - unfold bind, delay_, modify. apply IH.
  - apply sound_bind; [by apply openNextFile_sound|].
    intros [] s' _; [done|apply IH].
Qed.

Lemma reset_forward_sound fuel s : sound (reset_forward INIT cfg fuel s).
Proof.
  revert s. induction fuel as [|fuel IH]; intros s; [done|].
  simpl. unfold bind at 1, FileIterator.hasNext.
  case_bool_decide as Hq; simpl; [done|].
  apply sound_bind; [by apply openNextFile_sound|]. intros _ s' _. apply IH.
Qed.

Lemma reset_sound fuel s : sound (reset_ INIT cfg fuel s).
Proof.
  unfold reset_. apply sound_bind; [done|]. intros _ s0 _.
  apply sound_bind; [apply reset_first_sound|]. intros _ s1 _.
  destruct (flagSkipFirstLumis_ cfg); [apply reset_forward_sound|done].
Qed.

Lemma skip_loop_sound pf n fuel : forall i s,
  -1 < i <= n -> n <= INT_MAX ->
  sound (skip_loop INIT cfg fuel pf i n s).
Proof.
  induction fuel as [|fuel IH]; intros i s Hi Hn.
  - simpl. by case_bool_decide.
  - destruct (decide (i = n)) as [->|Hne]; [by rewrite skip_loop_exit|].
    rewrite skip_loop_step by done.
    pose proof (prepare_sound pf s) as Hp.
    destruct (prepareNextEvent INIT cfg pf s) as [[e|] s1|e s1| |]; try done.
    unfold bind, int_pred, int_succ, ret, undefined.
    destruct (skipIt cfg e).
    + rewrite bool_decide_eq_false_2 by (unfold INT_MIN; lia).
      rewrite bool_decide_eq_false_2 by (unfold INT_MAX in *; lia).
      apply IH; lia.
    + rewrite bool_decide_eq_false_2 by (unfold INT_MAX in *; lia).
      apply IH; lia.
Qed.

(** *** Properties of the state kept by every step *)

Section Preserved.

Variable P : Sys -> Prop.

Hypothesis P_scan : forall s, P s -> P (update_state s).
Hypothesis P_close : forall s, P s -> P (closed s).
Hypothesis P_delay : forall s, P s -> P (emit ObsDelay s).
Hypothesis P_missing : forall s l q,
  P s -> queue_ (fiterator_ s) = l :: q ->
  P (emit (ObsMissing (make_path_data l))
       (set_fiterator (mkIter q (state_ (fiterator_ s))) s)).
Hypothesis P_opening : forall s l q f,
  P s -> streamReader_ s = None -> queue_ (fiterator_ s) = l :: q ->
  P (opening (make_path_data l) f (set_fiterator (mkIter q (state_ (fiterator_ s))) s)).
Hypothesis P_opened : forall s p f, P (opening p f s) -> P (opened p f s).
Hypothesis P_eof : forall s f,
  P s -> streamReader_ s = Some f -> P (emit (ObsEOF (currentFileName_ f)) s).
Hypothesis P_read : forall s f e rest,
  P s -> streamReader_ s = Some f -> unread_ f = e :: rest -> P (advance f e rest s).

Lemma scans_preserved n s : P s -> P (Nat.iter n update_state s).
Proof. intros H. induction n as [|n IH]; simpl; [exact H|by apply P_scan]. Qed.

Lemma openNextFile_preserved s s' :
  P s -> final (openNextFile_ INIT cfg s) = Some s' -> P s'.
Proof.
  intros HP. destruct (queue_ (fiterator_ s)) as [|l q] eqn:Hq.
  { by rewrite (openNextFile_empty _ Hq). }
  rewrite (openNextFile_popped _ _ _ Hq).
  assert (Hc : P (closed s)) by (by apply P_close).
  assert (Hqc : queue_ (fiterator_ (closed s)) = l :: q) by (by rewrite closed_iter).
  assert (Hst : state_ (fiterator_ (closed s)) = state_ (fiterator_ s))
    by (by rewrite closed_iter).
  pose proof (P_missing _ _ _ Hc Hqc) as Hm.
  destruct (disk s !! make_path_data l) as [f|].
  - pose proof (P_opening _ _ _ f Hc (closed_reader s) Hqc) as Ho.
    rewrite Hst in Ho. fold (popped q s) in Ho.
    case_bool_decide; intros [= <-]; [by apply P_opened|exact Ho].
  - rewrite Hst in Hm. by intros [= <-].
Qed.

Lemma readOn_preserved s f s' :
  P s -> streamReader_ s = Some f -> final (readOn s) = Some s' -> P s'.
Proof.
  intros HP Hr. destruct (unread_ f) as [|e rest] eqn:Hu.
  - rewrite (readOn_eof _ _ Hr Hu). intros [= <-].
    pose proof (P_close _ (P_eof _ _ HP Hr)) as Hc.
    unfold closed in Hc. simpl in Hc. by rewrite Hr in Hc.
  - rewrite (readOn_some _ _ _ _ Hr Hu). intros [= <-]. by apply P_read.
Qed.

Lemma body_preserved s s' : P s -> final (body s) = Some s' -> P s'.
Proof.
  intros HP.
  destruct (body_shape s) as [(s1 & Hb & _)|[(u & Hq & [n ->] & ->)|[(f & Hr & ->)|[_ ->]]]].
  - destruct (killed s) eqn:Hk.
    + rewrite (body_killed _ Hk). intros [= <-]. by apply P_close.
    + destruct (streamReader_ s) as [f|] eqn:Hr.
      * rewrite (body_open _ _ Hr Hk) in Hb.
        assert (Hr1 : streamReader_ (update_state s) = Some f) by (by rewrite update_reader).
        destruct (rotate (update_state s)).
        -- apply advance_done in Hb as [Hb _]. discriminate.
        -- apply (readOn_done _ f) in Hb as [Hb _]; done.
      * destruct (decide (queue_ (fiterator_ (update_state s)) = []
                          /\ state_ (fiterator_ (update_state s)) = EOR)) as [[Hq Hst]|Hn].
        -- rewrite (body_null_finished _ Hr Hk Hq Hst). intros [= <-]. by apply P_scan.
        -- exfalso. destruct (body_done _ _ _ Hb) as (_ & _ & _).
           destruct (decide (queue_ (fiterator_ (update_state (update_state s))) = []))
             as [Hq2|Hq2].
           ++ destruct (decide (state_ (fiterator_ (update_state s)) = EOR)) as [Hst|Hst].
              ** apply Hn. split; [|exact Hst]. by rewrite (update_EOR _ Hst) in Hq2.
              ** rewrite (body_null_wait _ Hr Hk Hst Hq2) in Hb.
                 destruct (rotate _).
                 --- apply advance_done in Hb as [Hb _]. discriminate.
                 --- discriminate.
           ++ rewrite (body_null_advance _ Hr Hk Hq2) in Hb.
              apply advance_done in Hb as [Hb _]. discriminate.
  - intros H. apply (openNextFile_preserved (Nat.iter n update_state s));
      [by apply scans_preserved|].
    unfold bind in H. by destruct (openNextFile_ INIT cfg _).
  - apply (readOn_preserved _ f); [by apply P_scan|by rewrite update_reader].
  - intros [= <-]. apply P_delay. by do 3 apply P_scan.
Qed.

Lemma prepare_preserved fuel s s' :
  P s -> final (prepareNextEvent INIT cfg fuel s) = Some s' -> P s'.
Proof.
  revert s. induction fuel as [|fuel IH]; intros s HP; [discriminate|].
  rewrite prepare_S. pose proof (body_preserved s) as Hb.
  destruct (body s) as [[v|] s1|e s1| |]; try discriminate.
  - intros [= <-]. by apply Hb.
  - apply IH. by apply Hb.
  - intros [= <-]. by apply Hb.
Qed.

Lemma skip_loop_preserved pf n fuel : forall i s s',
  P s -> final (skip_loop INIT cfg fuel pf i n s) = Some s' -> P s'.
Proof.
  induction fuel as [|fuel IH]; intros i s s' HP.
  - simpl. case_bool_decide; [|discriminate]. by intros [= <-].
  - destruct (decide (i = n)) as [->|Hne].
    { rewrite skip_loop_exit. by intros [= <-]. }
    rewrite skip_loop_step by done. pose proof (prepare_preserved pf s) as Hp.
    destruct (prepareNextEvent INIT cfg pf s) as [[e|] s1|e s1| |]; try discriminate.
    + specialize (Hp s1 HP eq_refl). intros H.
      destruct (counter_step e i (fun i2 => skip_loop INIT cfg fuel pf i2 n) s1 _ eq_refl)
        as [Hu|Hu]; rewrite Hu in H; [discriminate|]. by apply IH in H.
    + intros [= <-]. by apply Hp.
    + intros [= <-]. by apply Hp.
Qed.

Lemma reset_first_preserved fuel s s' :
  P s -> final (reset_first INIT cfg fuel s) = Some s' -> P s'.
Proof.
  revert s. induction fuel as [|fuel IH]; intros s HP; [discriminate|].
  simpl. unfold bind at 1, FileIterator.hasNext.
  case_bool_decide as Hq; simpl.
  - unfold bind, delay_, modify. apply IH. by apply P_delay, P_scan.
  - unfold bind. pose proof (openNextFile_preserved (update_state s)) as Ho.
    destruct (openNextFile_ INIT cfg (update_state s)) as [[] s1|e s1| |];
      try discriminate.
    + intros [= <-]. by apply Ho; [apply P_scan|].
    + apply IH. by apply Ho; [apply P_scan|].
    + intros [= <-]. by apply Ho; [apply P_scan|].
Qed.

Lemma reset_forward_preserved fuel s s' :
  P s -> final (reset_forward INIT cfg fuel s) = Some s' -> P s'.
Proof.
  revert s. induction fuel as [|fuel IH]; intros s HP; [discriminate|].
  simpl. unfold bind at 1, FileIterator.hasNext.
  case_bool_decide as Hq; simpl.
  - intros [= <-]. by apply P_scan.
  - unfold bind. pose proof (openNextFile_preserved (update_state s)) as Ho.
    destruct (openNextFile_ INIT cfg (update_state s)) as [b s1|e s1| |];
      try discriminate.
    + apply IH. by apply Ho; [apply P_scan|].
    + intros [= <-]. by apply Ho; [apply P_scan|].
Qed.

Hypothesis P_flag : forall s f,
  P s -> streamReader_ s = Some f ->
  P (set_streamReader
       (Some (mkSIF (currentFileName_ f) (startMsg_ f) (unread_ f) (currentEvMsg_ f) false))
       s).
Hypothesis P_merge : forall s h, P s -> P (emit (ObsMerge h true) s).
Hypothesis P_count : forall s e,
  P s -> P (emit (ObsEvent e) (set_processedEventPerLs (processedEventPerLs_ s + 1) s)).

Lemma check_preserved fuel s s' :
  P s -> final (checkNextEvent INIT cfg fuel s) = Some s' -> P s'.
Proof.
  intros HP. unfold checkNextEvent. unfold bind at 1.
  pose proof (prepare_preserved fuel s) as Hp.
  destruct (prepareNextEvent INIT cfg fuel s) as [[e|] s1|e s1| |] eqn:E;
    try discriminate.
  - specialize (Hp s1 HP eq_refl).
    destruct (prepare_event _ _ _ _ E) as (s0 & f & rest & _ & _ & Hs1).
    assert (Hr1 : streamReader_ s1 =
                  Some (mkSIF (currentFileName_ f) (startMsg_ f) rest (Some e) (newHeader_ f)))
      by (by rewrite Hs1).
    pose proof (P_flag _ _ Hp Hr1) as Hf. simpl in Hf.
    run. rewrite Hr1. simpl. destruct (newHeader_ f); simpl.
    + case_bool_decide; simpl; intros [= <-]; [exact Hf|].
      apply (P_count _ e) in Hf as Hc. apply (P_merge _ (startMsg_ f)) in Hf.
      by apply (P_count _ e) in Hf.
    + intros [= <-]. by apply (P_count _ e) in Hf.
  - intros [= <-]. by apply Hp.
  - intros [= <-]. by apply Hp.
Qed.

Lemma pump_preserved fuel k : forall s s',
  P s -> final (pump k fuel s) = Some s' -> P s'.
Proof.
  induction k as [|k IH]; intros s s' HP; [by intros [= <-]|].
  simpl. unfold bind. pose proof (check_preserved fuel s) as Hc.
  destruct (checkNextEvent INIT cfg fuel s) as [[] s1|e s1| |]; try discriminate.
  - apply IH. by apply Hc.
  - intros [= <-]. by apply Hc.
  - intros [= <-]. by apply Hc.
Qed.

Hypothesis P_init : forall s, P s -> P (update_state (set_fiterator (mkIter [] OPEN) s)).

Lemma reset_preserved fuel s s' :
  P s -> final (reset_ INIT cfg fuel s) = Some s' -> P s'.
Proof.
  intros HP. unfold reset_, bind, FileIterator.initialise, modify.
  set (s0 := update_state (set_fiterator (mkIter [] OPEN) s)).
  assert (H0 : P s0) by (by apply P_init).
  pose proof (reset_first_preserved fuel s0) as H1.
  destruct (reset_first INIT cfg fuel s0) as [[] s1|e s1| |]; try discriminate.
  - destruct (flagSkipFirstLumis_ cfg).
    + apply reset_forward_preserved. by apply H1.
    + intros [= <-]. by apply H1.
  - intros [= <-]. by apply H1.
Qed.

End Preserved.


(** *** More properties of the reader *)

(** X1: [prepareNextEvent], [checkNextEvent] and [reset_] never run into
    undefined behaviour: [front()] is never called on an empty queue and
    [streamReader_] is never dereferenced while it is null. *)
Theorem reader_never_undefined fuel s :
  prepareNextEvent INIT cfg fuel s ≠ Undefined /\
  checkNextEvent INIT cfg fuel s ≠ Undefined /\
  reset_ INIT cfg fuel s ≠ Undefined.
Proof.
  pose proof (prepare_sound fuel s) as H1.
  pose proof (check_sound fuel s) as H2.
  pose proof (reset_sound fuel s) as H3.
  split; [|split]; intros E; [rewrite E in H1|rewrite E in H2|rewrite E in H3]; done.
Qed.

(** X2: for [0 <= n <= INT_MAX] the counter of [skip(n)] stays between
    -1 and [n]: it never overflows, and [skip] never runs into undefined
    behaviour. *)
Theorem skip_never_overflows n fuel pf s :
  0 <= n <= INT_MAX ->
  skip INIT cfg fuel pf n s ≠ Undefined.
Proof.
  intros [Hn Hmax] E. pose proof (skip_loop_sound pf n fuel 0 s ltac:(lia) Hmax) as H.
  unfold skip in E. by rewrite E in H.
Qed.

Lemma counter_kept (c : Z) :
  let P := fun t : Sys => processedEventPerLs_ t = c \/ processedEventPerLs_ t = 0 in
  (forall t, P t -> P (update_state t)) /\
  (forall t, P t -> P (closed t)) /\
  (forall t p f, P (opening p f t) -> P (opened p f t)).
Proof.
  intros P. split; [|split].
  - intros t; unfold P; by rewrite update_processed.
  - intros t; unfold P; by rewrite closed_processed.
  - intros t p f _; right; apply opened_processed.
Qed.

Lemma prepare_counter fuel s s' :
  final (prepareNextEvent INIT cfg fuel s) = Some s' ->
  processedEventPerLs_ s' = processedEventPerLs_ s \/ processedEventPerLs_ s' = 0.
Proof.
  destruct (counter_kept (processedEventPerLs_ s)) as (H1 & H2 & H3).
  apply (prepare_preserved _ H1 H2); try done; try (by right). by left.
Qed.

Lemma prepare_delivered fuel s s' :
  final (prepareNextEvent INIT cfg fuel s) = Some s' -> delivered s' = delivered s.
Proof.
  apply (prepare_preserved (fun t => delivered t = delivered s)); try done.
  - intros t. unfold delivered. by rewrite update_trace.
  - intros t. unfold closed. by destruct (streamReader_ t).
  - intros t p f. unfold opened, opening, delivered.
    by destruct (flagDeleteDatFiles_ cfg).
Qed.

(** X5: [prepareNextEvent] and [skip] hand no event to
    [deserializeEvent] and never add to [processedEventPerLs_]: they leave
    the counter as it is, or at 0 when a file has been opened.  The events
    [skip] passes over are not delivered and do not count towards
    [minEventsPerLumi]. *)
Theorem skipped_events_are_not_counted n fuel pf s s' :
  final (skip INIT cfg fuel pf n s) = Some s' \/
  final (prepareNextEvent INIT cfg pf s) = Some s' ->
  (processedEventPerLs_ s' = processedEventPerLs_ s \/ processedEventPerLs_ s' = 0) /\
  delivered s' = delivered s.
Proof.
  destruct (counter_kept (processedEventPerLs_ s)) as (H1 & H2 & H3).
  intros [H|H]; [|split; [by apply (prepare_counter pf)|by apply (prepare_delivered pf)]].
  split.
  - revert H. apply (skip_loop_preserved _ H1 H2); try done; try (by right). by left.
  - revert H. apply (skip_loop_preserved (fun t => delivered t = delivered s)); try done.
    + intros t. unfold delivered. by rewrite update_trace.
    + intros t. unfold closed. by destruct (streamReader_ t).
    + intros t p f. unfold opened, opening, delivered.
      by destruct (flagDeleteDatFiles_ cfg).
Qed.


(** *** Properties kept by the calls of the reader *)

Lemma stable_prepare P fuel s s' :
  stable P -> P s -> final (prepareNextEvent INIT cfg fuel s) = Some s' -> P s'.
Proof.
  intros (H1 & H2 & H3 & H4 & H5 & H6 & H7 & H8 & _). by apply prepare_preserved.
Qed.

Lemma stable_check P fuel s s' :
  stable P -> P s -> final (checkNextEvent INIT cfg fuel s) = Some s' -> P s'.
Proof.
  intros (H1 & H2 & H3 & H4 & H5 & H6 & H7 & H8 & H9 & H10 & H11).
  by apply check_preserved.
Qed.

Lemma stable_skip P fuel pf n s s' :
  stable P -> P s -> final (skip INIT cfg fuel pf n s) = Some s' -> P s'.
Proof.
  intros (H1 & H2 & H3 & H4 & H5 & H6 & H7 & H8 & _). by apply skip_loop_preserved.
Qed.

Lemma stable_pump P fuel k s s' :
  stable P -> P s -> final (pump k fuel s) = Some s' -> P s'.
Proof.
  intros (H1 & H2 & H3 & H4 & H5 & H6 & H7 & H8 & H9 & H10 & H11).
  by apply pump_preserved.
Qed.

Lemma stable_reset P fuel s s' :
  stable P ->
  (forall s, P s -> P (update_state (set_fiterator (mkIter [] OPEN) s))) ->
  P s -> final (reset_ INIT cfg fuel s) = Some s' -> P s'.
Proof.
  intros (H1 & H2 & H3 & H4 & H5 & H6 & H7 & H8 & _) H0. by apply reset_preserved.
Qed.

Lemma update_cases s :
  update_state s = s \/
  exists step rest,
    future s = step :: rest /\
    queue_ (fiterator_ (update_state s)) = queue_ (fiterator_ s) ++ arriving step /\
    future (update_state s) = rest.
Proof.
  unfold update_state.
  destruct (state_ (fiterator_ s)), (future s) as [|step rest]; simpl;
    first [by left|right; by eexists _, _].
Qed.

Lemma visited_update s : visited (update_state s) = visited s.
Proof. unfold visited. by rewrite update_trace. Qed.

Lemma visited_closed s : visited (closed s) = visited s.
Proof. unfold closed. by destruct (streamReader_ s). Qed.

Lemma fifo_stable (F : list PollStep) (L : list string) :
  stable (fun t =>
    exists k, future t = drop k F /\
              rev (visited t) ++ paths (queue_ (fiterator_ t))
                = L ++ paths (concat (arriving <$> take k F))).
Proof.
  repeat split.
  - intros s (k & Hf & Hv). destruct (update_cases s) as [->|(step & rest & Hs & Hq & Hr)].
    { by exists k. }
    exists (S k). rewrite Hs in Hf.
    assert (Hk : F !! k = Some step).
    { rewrite <- (Nat.add_0_r k), <- lookup_drop, <- Hf. reflexivity. }
    split.
    + rewrite Hr. rewrite (drop_S _ _ _ Hk) in Hf. by injection Hf.
    + rewrite visited_update, Hq, (take_S_r _ _ _ Hk), fmap_app, concat_app.
      unfold paths in *. rewrite !map_app, app_assoc, Hv. simpl.
      by rewrite app_nil_r, app_assoc.
  - intros s (k & Hf & Hv). exists k. by rewrite closed_future, visited_closed, closed_iter.
  - intros s (k & Hf & Hv). by exists k.
  - intros s l q (k & Hf & Hv) Hq. exists k. split; [exact Hf|].
    rewrite <- Hv, Hq. unfold visited. simpl. by rewrite <- app_assoc.
  - intros s l q f (k & Hf & Hv) _ Hq. exists k. split; [exact Hf|].
    rewrite <- Hv, Hq. unfold visited. simpl. by rewrite <- app_assoc.
  - intros s p f (k & Hf & Hv). exists k. rewrite opened_future, opened_iter.
    split; [exact Hf|]. rewrite <- Hv. unfold visited, opened, opening.
    by destruct (flagDeleteDatFiles_ cfg).
  - intros s f (k & Hf & Hv) _. by exists k.
  - intros s f e rest (k & Hf & Hv) _ _. by exists k.
  - intros s f (k & Hf & Hv) _. by exists k.
  - intros s h (k & Hf & Hv). by exists k.
  - intros s e (k & Hf & Hv). by exists k.
Qed.

(** X6: the entries are taken in the order in which they were queued and
    found by the scans: after any call, the files looked for so far (opened
    or reported missing), followed by the files of the entries still
    queued, are those of before the call followed by those of the entries
    the scans made during the call have found.  No entry is passed over
    and none is taken twice. *)
Theorem entries_are_taken_in_order fuel pf n s s' :
  final (checkNextEvent INIT cfg fuel s) = Some s' \/
  final (prepareNextEvent INIT cfg fuel s) = Some s' \/
  final (skip INIT cfg fuel pf n s) = Some s' ->
  exists k,
    future s' = drop k (future s) /\
    rev (visited s') ++ paths (queue_ (fiterator_ s'))
      = (rev (visited s) ++ paths (queue_ (fiterator_ s)))
          ++ paths (concat (arriving <$> take k (future s))).
Proof.
  pose proof (fifo_stable (future s)
                (rev (visited s) ++ paths (queue_ (fiterator_ s)))) as Hst.
  assert (H0 : exists k, future s = drop k (future s) /\
                 rev (visited s) ++ paths (queue_ (fiterator_ s))
                   = (rev (visited s) ++ paths (queue_ (fiterator_ s)))
                       ++ paths (concat (arriving <$> take k (future s)))).
  { exists 0%nat. split; [reflexivity|]. simpl. by rewrite app_nil_r. }
  intros [H|[H|H]].
  - exact (stable_check _ _ _ _ Hst H0 H).
  - exact (stable_prepare _ _ _ _ Hst H0 H).
  - exact (stable_skip _ _ _ _ _ _ Hst H0 H).
Qed.

Lemma tracking_stable :
  stable (fun t => tracked (trace t) = Some (currentFileName_ <$> streamReader_ t)).
Proof.
  repeat split.
  - intros s H. by rewrite update_trace, update_reader.
  - intros s H. unfold closed. destruct (streamReader_ s) as [f|] eqn:Hr; [|by rewrite Hr].
    simpl in *. rewrite H. simpl. by rewrite bool_decide_eq_true_2.
  - intros s H. simpl. by rewrite H.
  - intros s l q H _. simpl. by rewrite H.
  - intros s l q f H Hr _. simpl. rewrite H, Hr. reflexivity.
  - intros s p f H. unfold opened, opening in *.
    destruct (flagDeleteDatFiles_ cfg); simpl in *;
      destruct (tracked (trace s)) as [[?|]|]; simpl in *; try discriminate;
      reflexivity.
  - intros s f H Hr. simpl. rewrite H, Hr. simpl. by rewrite bool_decide_eq_true_2.
  - intros s f e rest H Hr _. simpl.
    rewrite H, Hr. simpl. by rewrite bool_decide_eq_true_2.
  - intros s f H Hr. simpl. by rewrite H, Hr.
  - intros s h H. simpl. by rewrite H.
  - intros s e H. simpl. by rewrite H.
Qed.

(** X7: at most one file is open at any time.  From the construction of
    the reader on, and through every call, the effects are in place: a
    file is opened only while none is open, records are read and the end
    of file is seen only on the open file, and the file that is closed is
    the open one; the file the trace leaves open is the one
    [streamReader_] holds. *)
Theorem one_file_open_at_a_time fuel pf n k s s' :
  (tracked (trace s) = Some (currentFileName_ <$> streamReader_ s) /\
   (final (checkNextEvent INIT cfg fuel s) = Some s' \/
    final (prepareNextEvent INIT cfg fuel s) = Some s' \/
    final (skip INIT cfg fuel pf n s) = Some s' \/
    final (pump k fuel s) = Some s')) \/
  (streamReader_ s = None /\ trace s = [] /\
   final (reset_ INIT cfg fuel s) = Some s') ->
  tracked (trace s') = Some (currentFileName_ <$> streamReader_ s').
Proof.
  pose proof tracking_stable as Hst.
  intros [[H0 [H|[H|[H|H]]]]|(Hr & Ht & H)].
  - exact (stable_check _ _ _ _ Hst H0 H).
  - exact (stable_prepare _ _ _ _ Hst H0 H).
  - exact (stable_skip _ _ _ _ _ _ Hst H0 H).
  - exact (stable_pump _ _ _ _ _ Hst H0 H).
  - revert H. apply (stable_reset _ _ _ _ Hst).
    + intros t Ht'. by rewrite update_trace, update_reader.
    + by rewrite Ht, Hr.
Qed.

Lemma unlinks_stable : stable (fun t => unlinks_ok (trace t)).
Proof.
  repeat split; try done.
  - intros s H. by rewrite update_trace.
  - intros s H. unfold closed. by destruct (streamReader_ s).
  - intros s p f H. unfold opened, opening in *.
    destruct (flagDeleteDatFiles_ cfg) eqn:Hflag; simpl in *; [|exact H].
    split; [exact Hflag|]. split; [by eexists _, _|exact H].
Qed.

Lemma unlinks_ok_unset tr p :
  flagDeleteDatFiles_ cfg = false -> unlinks_ok tr -> ObsUnlink p ∉ tr.
Proof.
  intros Hflag. induction tr as [|o tr IH]; intros H; [apply not_elem_of_nil|].
  apply not_elem_of_cons.
  destruct o; simpl in H; try (split; [discriminate|by apply IH]).
  destruct H as [H _]. congruence.
Qed.

(** X8: the reader unlinks nothing but the file it has just opened and
    whose header it has just merged, and only with [deleteDatFiles] set:
    from the construction of the reader on, and through every call, each
    [unlink] in the trace comes right after the opening and the header
    merge of the same file; with [deleteDatFiles] unset there is none. *)
Theorem unlink_only_after_open fuel pf n k s s' :
  (unlinks_ok (trace s) /\
   (final (checkNextEvent INIT cfg fuel s) = Some s' \/
    final (prepareNextEvent INIT cfg fuel s) = Some s' \/
    final (skip INIT cfg fuel pf n s) = Some s' \/
    final (pump k fuel s) = Some s')) \/
  (trace s = [] /\ final (reset_ INIT cfg fuel s) = Some s') ->
  unlinks_ok (trace s') /\
  (flagDeleteDatFiles_ cfg = false -> forall p, ObsUnlink p ∉ trace s').
Proof.
  pose proof unlinks_stable as Hst. intros H.
  assert (Hok : unlinks_ok (trace s')).
  { destruct H as [[H0 [H|[H|[H|H]]]]|(Ht & H)].
    - exact (stable_check _ _ _ _ Hst H0 H).
    - exact (stable_prepare _ _ _ _ Hst H0 H).
    - exact (stable_skip _ _ _ _ _ _ Hst H0 H).
    - exact (stable_pump _ _ _ _ _ Hst H0 H).
    - revert H. apply (stable_reset _ _ _ _ Hst).
      + intros t Ht'. by rewrite update_trace.
      + by rewrite Ht. }
  split; [exact Hok|]. intros Hflag p. by apply unlinks_ok_unset.
Qed.

(** *** Starting up *)

Lemma visited_opened p f s : visited (opened p f s) = p :: visited s.
Proof. unfold visited, opened. by destruct (flagDeleteDatFiles_ cfg). Qed.

Lemma reset_first_opens l q2 f : forall q1 s fuel,
  queue_ (fiterator_ s) = q1 ++ l :: q2 ->
  Forall (fun l' => disk s !! make_path_data l' = None) q1 ->
  disk s !! make_path_data l = Some f ->
  code (dat_start f) = INIT ->
  future s = [] ->
  (length q1 + 1 <= fuel)%nat ->
  exists s',
    reset_first INIT cfg fuel s = Done tt s' /\
    streamReader_ s' = Some (handle (make_path_data l) f) /\
    queue_ (fiterator_ s') = q2 /\
    processedEventPerLs_ s' = 0 /\
    future s' = [] /\
    reads s' = reads s /\
    rev (visited s') = rev (visited s) ++ paths q1 ++ [make_path_data l].
Proof.
  induction q1 as [|l1 q1 IH]; intros s fuel Hq Hmiss Hd Hc Hfut Hfuel;
    (destruct fuel as [|fuel]; [simpl in Hfuel; lia|]).
  - simpl in Hq. eexists. split.
    + simpl. unfold bind. rewrite (hasNext_quiet _ Hfut), Hq. simpl.
      by rewrite (openNextFile_good _ _ _ _ Hq Hd Hc).
    + rewrite opened_reader, opened_iter, opened_processed, opened_future, opened_reads.
      repeat split; try done.
      * simpl. by rewrite closed_future.
      * apply closed_reads.
      * rewrite visited_opened.
        change (visited (set_fiterator (mkIter q2 (state_ (fiterator_ s))) (closed s)))
          with (visited (closed s)).
        by rewrite visited_closed.
  - simpl in Hq. apply Forall_cons in Hmiss as [Hm1 Hmq].
    set (s1 := emit (ObsMissing (make_path_data l1))
                 (set_fiterator (mkIter (q1 ++ l :: q2) (state_ (fiterator_ s))) (closed s))).
    destruct (IH s1 fuel) as (s' & Hs' & Hr & Hq' & Hp & Hf' & Hrd & Hv); try done.
    + unfold s1; simpl. by rewrite closed_disk.
    + unfold s1; simpl. by rewrite closed_disk.
    + unfold s1; simpl. by rewrite closed_future.
    + simpl in Hfuel. lia.
    + exists s'. split; [|repeat split; try done].
      * simpl. unfold bind. rewrite (hasNext_quiet _ Hfut), Hq. simpl.
        rewrite (openNextFile_missing _ _ _ Hq Hm1). exact Hs'.
      * rewrite Hrd. unfold s1. apply closed_reads.
      * rewrite Hv.
        change (visited s1) with (make_path_data l1 :: visited (closed s)).
        rewrite visited_closed. simpl. by rewrite <- app_assoc.
Qed.

(** X9: without [skipFirstLumis], [reset_] drops the entries at the front
    of the backlog whose data files are not on disk and returns with the
    file of the first entry that has one open, no record read, the counter
    at 0, and the entries behind it still queued. *)
Theorem reset_opens_first_file_on_disk s q1 l q2 f fuel :
  flagSkipFirstLumis_ cfg = false ->
  let s0 := update_state (set_fiterator (mkIter [] OPEN) s) in
  queue_ (fiterator_ s0) = q1 ++ l :: q2 ->
  Forall (fun l' => disk s0 !! make_path_data l' = None) q1 ->
  disk s0 !! make_path_data l = Some f ->
  code (dat_start f) = INIT ->
  future s0 = [] ->
  (length q1 + 1 <= fuel)%nat ->
  exists s',
    reset_ INIT cfg fuel s = Done tt s' /\
    streamReader_ s' = Some (handle (make_path_data l) f) /\
    queue_ (fiterator_ s') = q2 /\
    processedEventPerLs_ s' = 0 /\
    reads s' = reads s /\
    rev (visited s') = rev (visited s) ++ paths q1 ++ [make_path_data l].
Proof.
  intros Hflag s0 Hq Hmiss Hd Hc Hfut Hfuel.
  destruct (reset_first_opens l q2 f q1 s0 fuel Hq Hmiss Hd Hc Hfut Hfuel)
    as (s' & Hs' & Hr & Hq' & Hp & _ & Hrd & Hv).
  exists s'. split; [|repeat split; try done].
  - unfold reset_, bind, FileIterator.initialise, modify. fold s0.
    by rewrite Hs', Hflag.
  - rewrite Hrd. unfold s0, reads. by rewrite update_trace.
  - rewrite Hv. unfold s0. by rewrite visited_update.
Qed.

Lemma reset_first_waits fuel : forall s,
  queue_ (fiterator_ s) = [] ->
  future s = [] \/ state_ (fiterator_ s) = EOR ->
  reset_first INIT cfg fuel s = OutOfFuel.
Proof.
  induction fuel as [|fuel IH]; intros s Hq Hw; [reflexivity|].
  assert (Hu : update_state s = s)
    by (destruct Hw; [by apply update_quiet|by apply update_EOR]).
  simpl. unfold bind at 1, FileIterator.hasNext. rewrite Hu, Hq. simpl.
  unfold bind, delay_, modify. by apply IH.
Qed.

(** X10: [reset_] has no way out but a file: when the first scan finds
    nothing queued and nothing will be found later, because the directory
    stays as it is or because the run is already over, the constructor
    never returns, whatever the number of passes allowed. *)
Theorem reset_waits_for_a_file s :
  let s0 := update_state (set_fiterator (mkIter [] OPEN) s) in
  queue_ (fiterator_ s0) = [] ->
  future s0 = [] \/ state_ (fiterator_ s0) = EOR ->
  forall fuel, reset_ INIT cfg fuel s = OutOfFuel.
Proof.
  intros s0 Hq Hw fuel. unfold reset_, bind, FileIterator.initialise, modify. fold s0.
  by rewrite (reset_first_waits fuel s0 Hq Hw).
Qed.

(** *** Waiting and reading on *)

Lemma waiting_pass s :
  streamReader_ s = None ->
  killed s = false ->
  queue_ (fiterator_ s) = [] ->
  future s = [] ->
  state_ (fiterator_ s) ≠ EOR ->
  body s = Done None (emit ObsDelay s).
Proof.
  intros Hr Hk Hq Hf Hst.
  rewrite (body_null_wait _ Hr Hk); rewrite ?(update_quiet _ Hf); try done.
  unfold rotate. rewrite Hq. reflexivity.
Qed.

(** X11: with no file open, nothing queued, nothing more to be found by
    a scan and the run not over, every pass of [prepareNextEvent] sleeps
    once and goes round again: the call never returns. *)
Theorem prepareNextEvent_waits s :
  streamReader_ s = None ->
  killed s = false ->
  queue_ (fiterator_ s) = [] ->
  future s = [] ->
  state_ (fiterator_ s) ≠ EOR ->
  body s = Done None (emit ObsDelay s) /\
  forall fuel,
    prepareNextEvent INIT cfg fuel s = OutOfFuel /\
    checkNextEvent INIT cfg fuel s = OutOfFuel.
Proof.
  intros Hr Hk Hq Hf Hst. split; [by apply waiting_pass|]. intros fuel.
  assert (Hp : prepareNextEvent INIT cfg fuel s = OutOfFuel).
  { revert s Hr Hk Hq Hf Hst. induction fuel as [|fuel IH]; intros s Hr Hk Hq Hf Hst;
      [reflexivity|].
    rewrite prepare_S, (waiting_pass _ Hr Hk Hq Hf Hst). by apply IH. }
  split; [exact Hp|]. unfold checkNextEvent, bind. by rewrite Hp.
Qed.

Lemma prepare_reading pf s f e rest :
  streamReader_ s = Some f ->
  unread_ f = e :: rest ->
  killed s = false ->
  rotate (update_state s) = false ->
  prepareNextEvent INIT cfg (S pf) s = Done (Some e) (advance f e rest (update_state s)).
Proof.
  intros Hr Hu Hk Hrot. rewrite prepare_S, (body_open _ _ Hr Hk), Hrot.
  rewrite (readOn_some _ f e rest); [reflexivity| |exact Hu]. by rewrite update_reader.
Qed.

(** The state after [checkNextEvent] has delivered [e] from the open
    file [f]. *)
Lemma check_reading pf s f e rest :
  streamReader_ s = Some f ->
  unread_ f = e :: rest ->
  newHeader_ f = false ->
  killed s = false ->
  rotate (update_state s) = false ->
  checkNextEvent INIT cfg (S pf) s =
    Done true
      (emit (ObsEvent e)
         (set_processedEventPerLs (processedEventPerLs_ s + 1)
            (set_streamReader
               (Some (mkSIF (currentFileName_ f) (startMsg_ f) rest (Some e) false))
               (emit (ObsRead (currentFileName_ f) e) (update_state s))))).
Proof.
  intros Hr Hu Hnh Hk Hrot. unfold checkNextEvent. unfold bind at 1.
  rewrite (prepare_reading _ _ _ _ _ Hr Hu Hk Hrot). run. rewrite Hnh. simpl.
  by rewrite update_processed.
Qed.

Lemma rotate_empty s : queue_ (fiterator_ s) = [] -> rotate s = false.
Proof. unfold rotate. by intros ->. Qed.

Lemma pump_drains : forall es s f,
  flagEndOfRunKills_ cfg = false ->
  state_ (fiterator_ s) = EOR ->
  queue_ (fiterator_ s) = [] ->
  streamReader_ s = Some f ->
  unread_ f = es ->
  newHeader_ f = false ->
  exists s1 f1,
    pump (length es) 1 s = Done true s1 /\
    delivered s1 = rev es ++ delivered s /\
    reads s1 = rev es ++ reads s /\
    streamReader_ s1 = Some f1 /\
    unread_ f1 = [] /\
    currentFileName_ f1 = currentFileName_ f /\
    fiterator_ s1 = fiterator_ s /\
    future s1 = future s /\
    processedEventPerLs_ s1 = processedEventPerLs_ s + Z.of_nat (length es).
Proof.
  induction es as [|e es IH]; intros s f Hflag Hst Hq Hr Hu Hnh.
  - exists s, f. simpl. rewrite Z.add_0_r. done.
  - assert (Hk : killed s = false) by (unfold killed; by rewrite Hflag).
    assert (Hup : update_state s = s) by (by apply update_EOR).
    assert (Hrot : rotate (update_state s) = false) by (rewrite Hup; by apply rotate_empty).
    pose proof (check_reading 0 _ _ _ _ Hr Hu Hnh Hk Hrot) as Hc. rewrite Hup in Hc.
    set (s1 := emit (ObsEvent e)
                 (set_processedEventPerLs (processedEventPerLs_ s + 1)
                    (set_streamReader
                       (Some (mkSIF (currentFileName_ f) (startMsg_ f) es (Some e) false))
                       (emit (ObsRead (currentFileName_ f) e) s)))) in *.
    destruct (IH s1 (mkSIF (currentFileName_ f) (startMsg_ f) es (Some e) false))
      as (s2 & f2 & Hp & Hd & Hrd & Hr2 & Hu2 & Hn2 & Hit & Hfu & Hc2); try done.
    exists s2, f2. split; [|repeat split; try done].
    + simpl. unfold bind. by rewrite Hc.
    + rewrite Hd. simpl. by rewrite <- app_assoc.
    + rewrite Hrd. simpl. by rewrite <- app_assoc.
    + rewrite Hc2. simpl. lia.
Qed.

(** X12: with [endOfRunKills] unset, the end of the run does not cut the
    open file short: when the run is over and nothing is queued, the
    records left in the open file are all delivered, in order, one per
    call of [checkNextEvent], and only the call after the last one closes
    the file and returns false. *)
Theorem run_over_drains_open_file s f :
  flagEndOfRunKills_ cfg = false ->
  state_ (fiterator_ s) = EOR ->
  queue_ (fiterator_ s) = [] ->
  streamReader_ s = Some f ->
  newHeader_ f = false ->
  exists s1 s2,
    pump (length (unread_ f)) 1 s = Done true s1 /\
    delivered s1 = rev (unread_ f) ++ delivered s /\
    reads s1 = rev (unread_ f) ++ reads s /\
    checkNextEvent INIT cfg 2 s1 = Done false s2 /\
    streamReader_ s2 = None /\
    trace s2 = ObsClose (currentFileName_ f) :: ObsEOF (currentFileName_ f) :: trace s1.
Proof.
  intros Hflag Hst Hq Hr Hnh.
  destruct (pump_drains (unread_ f) s f Hflag Hst Hq Hr eq_refl Hnh)
    as (s1 & f1 & Hp & Hd & Hrd & Hr1 & Hu1 & Hn1 & Hit & _ & _).
  assert (Hst1 : state_ (fiterator_ s1) = EOR) by (by rewrite Hit).
  assert (Hq1 : queue_ (fiterator_ s1) = []) by (by rewrite Hit).
  assert (Hk : killed s1 = false) by (unfold killed; by rewrite Hflag).
  set (s2 := set_streamReader None
               (emit (ObsClose (currentFileName_ f1)) (emit (ObsEOF (currentFileName_ f1)) s1))).
  assert (Hp2 : prepareNextEvent INIT cfg 2 s1 = Done None s2).
  { rewrite prepare_S, (body_open _ _ Hr1 Hk), (update_EOR _ Hst1), (rotate_empty _ Hq1).
    rewrite (readOn_eof _ _ Hr1 Hu1). fold s2.
    rewrite prepare_S, (body_null_finished s2); rewrite ?(update_EOR s2); done. }
  exists s1, s2. repeat split; try done.
  - unfold checkNextEvent, bind. by rewrite Hp2.
  - unfold s2. simpl. by rewrite Hn1.
Qed.

(** X13: a threshold rotation gives up the rest of the open file: once
    more than [minEventsPerLumi] events of the open file have been counted
    and the file of the next entry is on disk, the next call of
    [checkNextEvent] delivers the first record of that next file, with the
    counter back at 1, and the records the former file still held are not
    read. *)
Theorem rotation_drops_unread_events s f l q f2 e rest :
  streamReader_ s = Some f ->
  killed s = false ->
  future s = [] ->
  0 <= minEventsPerLs_ cfg < processedEventPerLs_ s ->
  queue_ (fiterator_ s) = l :: q ->
  disk s !! make_path_data l = Some f2 ->
  code (dat_start f2) = INIT ->
  dat_events f2 = e :: rest ->
  exists s',
    checkNextEvent INIT cfg 2 s = Done true s' /\
    reads s' = e :: reads s /\
    delivered s' = e :: delivered s /\
    streamReader_ s' = Some (mkSIF (make_path_data l) (dat_start f2) rest (Some e) false) /\
    queue_ (fiterator_ s') = q /\
    processedEventPerLs_ s' = 1.
Proof.
  intros Hr Hk Hfut [Hmin Hn] Hq Hd Hc He.
  set (s1 := opened (make_path_data l) f2 (popped q s)).
  assert (Hb : body s = Done None s1).
  { rewrite (body_open _ _ Hr Hk), (update_quiet _ Hfut).
    assert (Hrot : rotate s = true).
    { unfold rotate. rewrite Hq. simpl. by apply Z.ltb_lt. }
    rewrite Hrot. unfold bind. by rewrite (openNextFile_good _ _ _ _ Hq Hd Hc). }
  assert (Hr1 : streamReader_ s1 = Some (handle (make_path_data l) f2))
    by apply opened_reader.
  assert (Hf1 : future s1 = [])
    by (unfold s1, popped; rewrite opened_future; simpl; by rewrite closed_future).
  assert (Hk1 : killed s1 = false).
  { unfold killed, s1, popped in *. rewrite opened_iter. exact Hk. }
  assert (Hrot1 : rotate (update_state s1) = false).
  { rewrite (update_quiet _ Hf1). unfold rotate, s1. rewrite opened_processed.
    apply andb_false_iff. right. apply Z.ltb_ge. lia. }
  assert (Hp : prepareNextEvent INIT cfg 2 s =
               Done (Some e) (advance (handle (make_path_data l) f2) e rest s1)).
  { rewrite prepare_S, Hb.
    rewrite (prepare_reading 0 _ _ _ _ Hr1 He Hk1 Hrot1). by rewrite (update_quiet _ Hf1). }
  eexists. split.
  - unfold checkNextEvent. unfold bind at 1. rewrite Hp. run. reflexivity.
  - assert (Hrd : reads s1 = reads s)
      by (unfold s1, popped; rewrite opened_reads; apply closed_reads).
    assert (Hdl : delivered s1 = delivered s).
    { unfold s1, popped, delivered, opened.
      destruct (flagDeleteDatFiles_ cfg); simpl; unfold closed;
        by destruct (streamReader_ s). }
    repeat split.
    + change (e :: reads s1 = e :: reads s). by rewrite Hrd.
    + change (e :: delivered s1 = e :: delivered s). by rewrite Hdl.
    + unfold s1. simpl. rewrite opened_iter. reflexivity.
    + unfold s1. simpl. by rewrite opened_processed.
Qed.

(** X16: with [endOfRunKills] set, the end of the run cuts the open file
    short: as soon as the run is seen to have left the OPEN state, the next
    call closes the open file and returns the end of the stream, whatever
    records the file still holds and whatever is queued; none of them is
    read. *)
Theorem endOfRunKills_cuts_open_file s f fuel :
  flagEndOfRunKills_ cfg = true ->
  state_ (fiterator_ s) ≠ OPEN ->
  streamReader_ s = Some f ->
  let s' := set_streamReader None (emit (ObsClose (currentFileName_ f)) s) in
  prepareNextEvent INIT cfg (S fuel) s = Done None s' /\
  checkNextEvent INIT cfg (S fuel) s = Done false s' /\
  reads s' = reads s /\
  fiterator_ s' = fiterator_ s.
Proof.
  intros Hflag Hst Hr s'.
  assert (Hp : prepareNextEvent INIT cfg (S fuel) s = Done None s').
  { rewrite prepare_S, body_killed.
    - unfold closed, s'. by rewrite Hr.
    - unfold killed. rewrite Hflag. by apply bool_decide_eq_true_2. }
  split; [exact Hp|]. split; [|done]. unfold checkNextEvent, bind. by rewrite Hp.
Qed.

(** *** The threshold rotation and the negative skip, step by step *)

Lemma steady_not_killed s : steady s -> killed s = false.
Proof. intros [Hk _]. unfold killed. by rewrite Hk. Qed.

Lemma steady_no_rotation s : steady s -> rotate (update_state s) = false.
Proof.
  intros [_ [Hn|[Hst Hq]]].
  - unfold rotate. rewrite update_processed.
    apply andb_false_iff. right. by apply Z.ltb_ge.
  - rewrite (update_EOR _ Hst). by apply rotate_empty.
Qed.

Lemma steady_advance s f e rest :
  steady s -> steady (advance f e rest (update_state s)).
Proof.
  intros [Hk [Hn|[Hst Hq]]]; split; try done.
  - left. simpl. by rewrite update_processed.
  - right. simpl. by rewrite (update_EOR _ Hst).
Qed.

Lemma steady_next pf s f e rest :
  steady s ->
  streamReader_ s = Some f ->
  unread_ f = e :: rest ->
  prepareNextEvent INIT cfg (S pf) s = Done (Some e) (advance f e rest (update_state s)).
Proof.
  intros Hs Hr Hu.
  apply prepare_reading; [exact Hr|exact Hu|by apply steady_not_killed|
                          by apply steady_no_rotation].
Qed.

Lemma consume_facts : forall es s f rest,
  streamReader_ s = Some f ->
  unread_ f = es ++ rest ->
  steady s ->
  steady (consume f es s) /\
  reads (consume f es s) = rev es ++ reads s /\
  trace (consume f es s) = map (ObsRead (currentFileName_ f)) (rev es) ++ trace s /\
  processedEventPerLs_ (consume f es s) = processedEventPerLs_ s /\
  (state_ (fiterator_ s) = EOR ->
   fiterator_ (consume f es s) = fiterator_ s /\
   disk (consume f es s) = disk s /\
   future (consume f es s) = future s) /\
  exists f',
    streamReader_ (consume f es s) = Some f' /\
    unread_ f' = rest /\
    currentFileName_ f' = currentFileName_ f.
Proof.
  induction es as [|e es IH]; intros s f rest Hr Hu Hs.
  - simpl. split_and!; try done. by exists f.
  - simpl in Hu. simpl consume. rewrite Hu. simpl tail.
    set (f1 := mkSIF (currentFileName_ f) (startMsg_ f) (es ++ rest) (Some e) (newHeader_ f)).
    set (s1 := advance f e (es ++ rest) (update_state s)).
    destruct (IH s1 f1 rest eq_refl eq_refl (steady_advance _ _ _ _ Hs))
      as (Hs' & Hrd & Htr & Hp & Hit & f' & Hr' & Hu' & Hn').
    split; [exact Hs'|]. split.
    { rewrite Hrd. unfold s1, reads. simpl. rewrite update_trace.
      by rewrite <- app_assoc. }
    split.
    { rewrite Htr. unfold s1, f1. simpl. rewrite update_trace, map_app.
      by rewrite <- app_assoc. }
    split; [rewrite Hp; unfold s1; simpl; apply update_processed|].
    split.
    { intros Hst.
      assert (Hst1 : state_ (fiterator_ s1) = EOR)
        by (unfold s1; simpl; by rewrite (update_EOR _ Hst)).
      destruct (Hit Hst1) as (-> & -> & ->).
      unfold s1; simpl; by rewrite (update_EOR _ Hst). }
    by exists f'.
Qed.

(** With a negative bound, [skip] reads the records of the open file one
    per pass, counting those the predicate lets through. *)
Lemma skip_loop_reads pf n : forall es s f i rest,
  n < 0 <= i ->
  streamReader_ s = Some f ->
  unread_ f = es ++ rest ->
  steady s ->
  i + kept es <= INT_MAX ->
  forall extra,
    skip_loop INIT cfg (length es + extra) (S pf) i n s
      = skip_loop INIT cfg extra (S pf) (i + kept es) n (consume f es s).
Proof.
  induction es as [|e es IH]; intros s f i rest Hi Hr Hu Hs Hmax extra.
  - change (kept []) with 0. by rewrite Z.add_0_r.
  - simpl in Hu. simpl consume. rewrite Hu. simpl tail.
    set (f1 := mkSIF (currentFileName_ f) (startMsg_ f) (es ++ rest) (Some e) (newHeader_ f)).
    set (s1 := advance f e (es ++ rest) (update_state s)).
    change (length (e :: es) + extra)%nat with (S (length es + extra)).
    rewrite skip_loop_step by lia.
    rewrite (steady_next _ _ _ _ _ Hs Hr Hu). fold s1.
    rewrite kept_cons in *. pose proof (kept_nonneg es) as Hk.
    unfold bind, int_pred, int_succ, ret.
    destruct (skipIt cfg e) eqn:Hsk.
    + rewrite bool_decide_eq_false_2 by (unfold INT_MIN; lia).
      rewrite bool_decide_eq_false_2 by (unfold INT_MAX in *; lia).
      replace (i - 1 + 1) with i by lia.
      apply (IH s1 f1 i rest); try done. by apply steady_advance.
    + rewrite bool_decide_eq_false_2 by (unfold INT_MAX in *; lia).
      replace (i + (kept es + 1)) with (i + 1 + kept es) by lia.
      apply (IH s1 f1 (i + 1) rest); try done; [lia|by apply steady_advance|lia].
Qed.

(** At the end of the stream the negative skip returns. *)
Lemma skip_loop_returns pf n s f i extra :
  n < 0 <= i ->
  streamReader_ s = Some f ->
  unread_ f = [] ->
  flagEndOfRunKills_ cfg = false ->
  state_ (fiterator_ s) = EOR ->
  queue_ (fiterator_ s) = [] ->
  skip_loop INIT cfg (S extra) (S (S pf)) i n s
    = Done tt (set_streamReader None
                 (emit (ObsClose (currentFileName_ f))
                    (emit (ObsEOF (currentFileName_ f)) s))).
Proof.
  intros Hi Hr Hu Hflag Hst Hq.
  assert (Hk : killed s = false) by (unfold killed; by rewrite Hflag).
  set (s2 := set_streamReader None
               (emit (ObsClose (currentFileName_ f)) (emit (ObsEOF (currentFileName_ f)) s))).
  assert (Hp : prepareNextEvent INIT cfg (S (S pf)) s = Done None s2).
  { rewrite prepare_S, (body_open _ _ Hr Hk), (update_EOR _ Hst), (rotate_empty _ Hq).
    rewrite (readOn_eof _ _ Hr Hu). fold s2.
    rewrite prepare_S, (body_null_finished s2); rewrite ?(update_EOR s2); done. }
  rewrite skip_loop_step by lia. by rewrite Hp.
Qed.

Lemma kept_replicate k e : skipIt cfg e = false -> kept (replicate k e) = Z.of_nat k.
Proof.
  intros He. induction k as [|k IH]; [reflexivity|].
  simpl replicate. rewrite kept_cons, He, IH. lia.
Qed.

(** One event more than [INT_MAX] counted: [++i] overflows. *)
Lemma skip_loop_overflows pf n s f e rest extra :
  n < 0 ->
  streamReader_ s = Some f ->
  unread_ f = e :: rest ->
  steady s ->
  skipIt cfg e = false ->
  skip_loop INIT cfg (S extra) (S pf) INT_MAX n s = Undefined.
Proof.
  intros Hn Hr Hu Hs Hsk.
  rewrite skip_loop_step by (unfold INT_MAX; lia).
  rewrite (steady_next _ _ _ _ _ Hs Hr Hu).
  unfold bind, int_succ, ret, undefined. rewrite Hsk.
  by rewrite bool_decide_eq_true_2.
Qed.

(** Within [INT_MAX] passes the counter cannot overflow. *)
Lemma skip_loop_defined pf n fuel : forall i s,
  n < 0 <= i ->
  i + Z.of_nat fuel <= INT_MAX ->
  sound (skip_loop INIT cfg fuel pf i n s).
Proof.
  induction fuel as [|fuel IH]; intros i s Hi Hmax.
  - simpl. by case_bool_decide.
  - rewrite skip_loop_step by lia.
    pose proof (prepare_sound pf s) as Hp.
    destruct (prepareNextEvent INIT cfg pf s) as [[e|] s1|e s1| |]; try done.
    unfold bind, int_pred, int_succ, ret, undefined.
    destruct (skipIt cfg e).
    + rewrite bool_decide_eq_false_2 by (unfold INT_MIN; lia).
      rewrite bool_decide_eq_false_2 by (unfold INT_MAX in *; lia).
      apply IH; lia.
    + rewrite bool_decide_eq_false_2 by (unfold INT_MAX in *; lia).
      apply IH; lia.
Qed.

Lemma skip_overflows pf n s f es e rest extra :
  n < 0 ->
  streamReader_ s = Some f ->
  unread_ f = es ++ e :: rest ->
  steady s ->
  kept es = INT_MAX ->
  skipIt cfg e = false ->
  skip INIT cfg (length es + S extra) (S pf) n s = Undefined.
Proof.
  intros Hn Hr Hu Hs Hk Hsk. unfold skip.
  rewrite (skip_loop_reads pf n es s f 0 (e :: rest)) by (done || lia).
  destruct (consume_facts es s f (e :: rest) Hr Hu Hs)
    as (Hs' & _ & _ & _ & _ & f' & Hr' & Hu' & _).
  rewrite Z.add_0_l, Hk. by apply (skip_loop_overflows pf n _ f' e rest).
Qed.

(** C3: in a pass of the loop that finds a file open and the processing
    not stopped by the end of the run, the reader leaves the open file for
    the next entry exactly when the scan finds an entry queued and the
    per-lumisection counter is strictly greater than [minEventsPerLumi];
    otherwise, and in particular at a counter equal to [minEventsPerLumi],
    it reads on from the open file and no entry leaves the queue.  The
    rotation closes the open file, whatever it still holds, pops the front
    entry and looks for its data file: a file that starts with an INIT
    record is left open with the counter at 0, a missing file leaves no
    file open, any other start record is fatal.  Reading on hands out the
    next record of the open file, or closes it at its end. *)
Theorem threshold_rotation_is_strict s f :
  streamReader_ s = Some f ->
  killed s = false ->
  let s1 := update_state s in
  let next := queue_ (fiterator_ s1) ≠ [] in
  let enough := minEventsPerLs_ cfg < processedEventPerLs_ s in
  (next /\ enough -> body s = (openNextFile_ INIT cfg ;; ret None) s1) /\
  (¬ (next /\ enough) -> body s = readOn s1) /\
  ((exists s', final (body s) = Some s' /\
               (length (queue_ (fiterator_ s')) < length (queue_ (fiterator_ s1)))%nat)
   <-> next /\ enough) /\
  (processedEventPerLs_ s = minEventsPerLs_ cfg ->
   body s = readOn s1 /\
   exists s', final (body s) = Some s' /\ fiterator_ s' = fiterator_ s1) /\
  (enough ->
   forall l q,
     queue_ (fiterator_ s1) = l :: q ->
     let p := make_path_data l in
     let c := set_fiterator (mkIter q (state_ (fiterator_ s1)))
                (set_streamReader None (emit (ObsClose (currentFileName_ f)) s1)) in
     match disk s1 !! p with
     | None => body s = Done None (emit (ObsMissing p) c)
     | Some f2 =>
         if bool_decide (code (dat_start f2) = INIT)
         then
           exists s',
             body s = Done None s' /\
             streamReader_ s' = Some (handle p f2) /\
             fiterator_ s' = mkIter q (state_ (fiterator_ s1)) /\
             processedEventPerLs_ s' = 0 /\
             trace s' =
               (if flagDeleteDatFiles_ cfg then [ObsUnlink p] else []) ++
               ObsMerge (dat_start f2) false :: ObsOpen p ::
               ObsClose (currentFileName_ f) :: trace s /\
             disk s' = (if flagDeleteDatFiles_ cfg then delete p (disk s1) else disk s1) /\
             future s' = future s1
         else
           body s = Thrown (wrongMessageType (code (dat_start f2)))
                      (set_streamReader (Some (handle p f2))
                         (emit (ObsOpen p) (set_processedEventPerLs 0 c)))
     end) /\
  (¬ (next /\ enough) ->
   match unread_ f with
   | e :: rest =>
       body s =
         Done (Some (Some e))
           (set_streamReader
              (Some (mkSIF (currentFileName_ f) (startMsg_ f) rest (Some e) (newHeader_ f)))
              (emit (ObsRead (currentFileName_ f) e) s1))
   | [] =>
       body s =
         Done None
           (set_streamReader None
              (emit (ObsClose (currentFileName_ f))
                 (emit (ObsEOF (currentFileName_ f)) s1)))
   end).
Proof.
  intros Hr Hk s1 next enough.
  assert (Hrot : rotate s1 = true <-> next /\ enough).
  { unfold rotate, next, enough, s1. rewrite update_processed.
    rewrite andb_true_iff, negb_true_iff, bool_decide_eq_false, Z.ltb_lt. tauto. }
  assert (Hyes : next /\ enough -> body s = (openNextFile_ INIT cfg ;; ret None) s1).
  { intros H. rewrite (body_open _ _ Hr Hk). apply Hrot in H. fold s1. by rewrite H. }
  assert (Hno : ¬ (next /\ enough) -> body s = readOn s1).
  { intros H. rewrite (body_open _ _ Hr Hk). fold s1.
    destruct (rotate s1); [|reflexivity]. exfalso. apply H, Hrot. reflexivity. }
  assert (Hr1 : streamReader_ s1 = Some f) by (unfold s1; by rewrite update_reader).
  split; [exact Hyes|]. split; [exact Hno|]. split; [|split; [|split]].
  - split.
    + intros (s' & Hfin & Hlen).
      destruct (decide (next /\ enough)) as [H|H]; [exact H|exfalso].
      rewrite (Hno H) in Hfin.
      destruct (readOn_final _ _ Hr1) as (s'' & Hfin' & Hit).
      rewrite Hfin' in Hfin. injection Hfin as <-. rewrite Hit in Hlen. lia.
    + intros H. rewrite (Hyes H). destruct H as [Hn _]. unfold next in Hn.
      destruct (queue_ (fiterator_ s1)) as [|l q] eqn:Hq; [done|].
      destruct (openNextFile_final _ _ _ Hq) as (s' & Hfin & Hq').
      exists s'. split; [|rewrite Hq'; simpl; lia].
      unfold bind. destruct (openNextFile_ INIT cfg s1); simpl in *; congruence.
  - intros Heq.
    assert (H : ¬ (next /\ enough)) by (unfold enough; lia).
    split; [exact (Hno H)|]. rewrite (Hno H). exact (readOn_final _ _ Hr1).
  - intros Hen l q Hq p c.
    assert (Hn : next) by (unfold next; by rewrite Hq).
    rewrite (Hyes (conj Hn Hen)). unfold bind.
    rewrite (openNextFile_popped _ _ _ Hq). fold p.
    assert (Hc : popped q s1 = c) by (unfold popped, closed; by rewrite Hr1).
    rewrite Hc.
    destruct (disk s1 !! p) as [f2|]; [|reflexivity].
    destruct (bool_decide (code (dat_start f2) = INIT)); [|reflexivity].
    exists (opened p f2 c). split; [reflexivity|].
    rewrite opened_reader, opened_iter, opened_processed, opened_future.
    split; [reflexivity|]. split; [reflexivity|]. split; [reflexivity|].
    unfold opened, c, s1. destruct (flagDeleteDatFiles_ cfg); simpl;
      by rewrite update_trace.
  - intros H. rewrite (Hno H).
    destruct (unread_ f) as [|e rest] eqn:Hu.
    + exact (readOn_eof _ _ Hr1 Hu).
    + exact (readOn_some _ _ _ _ Hr1 Hu).
Qed.

(** C10: for a negative [n] the counter of [skip(n)], which starts at 0
    and never goes down from one test to the next, is never equal to [n]
    as long as it does not overflow.  The call returns only when
    [prepareNextEvent] returns the null pointer; while the run is live it
    does not return, and within [INT_MAX] passes it is still looping,
    unless an exception has ended the job.  On an open file
    it reads one record per pass, whatever the predicate says of it, as
    long as no more than [INT_MAX] events have been counted; once the run
    is over and nothing is queued, it returns after the last record, with
    the file closed.  Counting one more event than [INT_MAX] is a signed
    overflow: the behaviour is undefined. *)
Theorem negative_skip_runs_to_end_of_stream n pf s :
  INT_MIN <= n < 0 ->
  (forall fuel s',
     skip INIT cfg fuel pf n s = Done tt s' ->
     finished s' /\ exists s0, prepareNextEvent INIT cfg pf s0 = Done None s') /\
  (live s ->
   forall fuel,
     (forall s', skip INIT cfg fuel pf n s ≠ Done tt s') /\
     (Z.of_nat fuel <= INT_MAX ->
      skip INIT cfg fuel pf n s = OutOfFuel \/
      exists e s', skip INIT cfg fuel pf n s = Thrown e s')) /\
  (forall f,
     streamReader_ s = Some f ->
     steady s ->
     (forall es rest,
        unread_ f = es ++ rest ->
        kept es <= INT_MAX ->
        (forall extra,
           skip INIT cfg (length es + extra) (S pf) n s
             = skip_loop INIT cfg extra (S pf) (kept es) n (consume f es s)) /\
        trace (consume f es s) = map (ObsRead (currentFileName_ f)) (rev es) ++ trace s /\
        reads (consume f es s) = rev es ++ reads s /\
        (exists f', streamReader_ (consume f es s) = Some f' /\ unread_ f' = rest) /\
        0 <= kept es /\ kept es ≠ n) /\
     (state_ (fiterator_ s) = EOR ->
      queue_ (fiterator_ s) = [] ->
      kept (unread_ f) <= INT_MAX ->
      forall extra,
        skip INIT cfg (length (unread_ f) + S extra) (S (S pf)) n s
          = Done tt
              (mkSys (fiterator_ s) None (processedEventPerLs_ s) (disk s) (future s)
                 (ObsClose (currentFileName_ f) :: ObsEOF (currentFileName_ f) ::
                  map (ObsRead (currentFileName_ f)) (rev (unread_ f)) ++ trace s))) /\
     (forall es e rest,
        unread_ f = es ++ e :: rest ->
        kept es = INT_MAX ->
        skipIt cfg e = false ->
        forall extra,
          skip INIT cfg (length es + S extra) (S pf) n s = Undefined)).
Proof.
  intros [_ Hn]. split; [|split].
  - intros fuel s'. apply skip_loop_negative. lia.
  - intros Hl fuel.
    assert (Hnot : forall s', skip INIT cfg fuel pf n s ≠ Done tt s').
    { intros s'. apply skip_loop_live; [lia|exact Hl]. }
    split; [exact Hnot|]. intros Hfuel.
    pose proof (skip_loop_defined pf n fuel 0 s ltac:(lia) ltac:(lia)) as Hsound.
    unfold skip in *.
    destruct (skip_loop INIT cfg fuel pf 0 n s) as [[] s'|e s'| |]; simpl in Hsound.
    + by destruct (Hnot s').
    + right. by exists e, s'.
    + done.
    + by left.
  - intros f Hr Hs. split; [|split].
    + intros es rest Hu Hmax.
      destruct (consume_facts es s f rest Hr Hu Hs)
        as (_ & Hrd & Htr & _ & _ & f' & Hr' & Hu' & _).
      split.
      { intros extra. unfold skip.
        by rewrite (skip_loop_reads pf n es s f 0 rest) by (done || lia). }
      split; [exact Htr|]. split; [exact Hrd|]. split; [by exists f'|].
      pose proof (kept_nonneg es). lia.
    + intros Hst Hq Hmax extra.
      destruct (consume_facts (unread_ f) s f [] Hr (eq_sym (app_nil_r _)) Hs)
        as (_ & _ & Htr & Hp & Hit & f' & Hr' & Hu' & Hn').
      destruct (Hit Hst) as (Hi & Hd & Hf). unfold skip.
      pose proof (proj1 Hs) as Hflag.
      rewrite (skip_loop_reads (S pf) n (unread_ f) s f 0 [])
        by (done || lia || by rewrite app_nil_r).
      pose proof (kept_nonneg (unread_ f)) as Hk.
      rewrite (skip_loop_returns pf n _ f' (0 + kept (unread_ f)) extra)
        by (done || lia || (rewrite Hi; done)).
      rewrite Hn'. f_equal.
      destruct (consume f (unread_ f) s) as [it r pr d fu tr]. simpl in *.
      by rewrite Hi, Hp, Hd, Hf, Htr.
    + intros es e rest Hu Hk Hsk extra.
      by apply (skip_overflows pf n s f es e rest).
Qed.
End Properties.

(** ** The properties on the small run directory *)

(** C1: with [deleteDatFiles] set, constructing the reader on a directory
    that holds one lumisection with three events returns with the data
    file already unlinked: the file is gone from disk while none of its
    records has been read and no end of file has been seen; the first
    event is read only afterwards, from the handle that is still open. *)
Theorem deleteDatFiles_unlinks_at_open :
  exists s1 s2,
    reset_ ex_INIT ex_deleting 1 ex_one_lumi = Done tt s1 /\
    disk s1 !! "run000001_ls0001.dat" = None /\
    streamReader_ s1 = Some (handle "run000001_ls0001.dat" ex_dat1) /\
    trace s1 = [ObsUnlink "run000001_ls0001.dat"; ObsMerge (mkInit 1) false;
                ObsOpen "run000001_ls0001.dat"] /\
    reads s1 = [] /\
    checkNextEvent ex_INIT ex_deleting 1 s1 = Done true s2 /\
    trace s2 = [ObsEvent (ex_event 1); ObsRead "run000001_ls0001.dat" (ex_event 1);
                ObsUnlink "run000001_ls0001.dat"; ObsMerge (mkInit 1) false;
                ObsOpen "run000001_ls0001.dat"].
Proof.
  eexists _, _.
  split; [vm_compute; reflexivity|].
  split; [vm_compute; reflexivity|].
  split; [reflexivity|]. split; [reflexivity|]. split; [reflexivity|].
  split; [vm_compute; reflexivity|]. reflexivity.
Qed.

(** The run is over with lumisections 2 and 3 still queued: they stay
    queued. *)
Lemma endOfRunKills_stops_cleanly_witness :
  prepareNextEvent ex_INIT ex_killing 1 ex_run_over = Done None ex_run_over /\
  checkNextEvent ex_INIT ex_killing 1 ex_run_over = Done false ex_run_over.
Proof.
  apply (endOfRunKills_stops_cleanly ex_INIT ex_killing ex_run_over 0).
  - reflexivity.
  - simpl. discriminate.
  - reflexivity.
Defined.

(** The predicate filters 5 and 9; [skip(3)] on 1, 2, 5, 3, 9, 4 reads
    1, 2, 5, 3 and leaves 9, 4. *)
Lemma skip_counts_only_unfiltered_events_witness :
  exists s',
    skip ex_INIT ex_filtering 4 1 3 ex_on_stream = Done tt s' /\
    reads s' = map ex_event [3; 5; 2; 1]%N /\
    exists f', streamReader_ s' = Some f' /\ unread_ f' = map ex_event [9; 4]%N.
Proof.
  assert (Hn : 0 <= 3 <= INT_MAX) by (unfold INT_MAX; lia).
  exact (proj2 (skip_counts_only_unfiltered_events ex_INIT ex_filtering 3 Hn)
           ex_on_stream (handle "stream.dat" ex_stream) (map ex_event [1; 2; 5; 3]%N)
           eq_refl eq_refl ltac:(simpl; lia) eq_refl 0%nat 0%nat).
Defined.

(** Three lumisections in the backlog: the reader starts on the third. *)
Lemma skipFirstLumis_fast_forwards_witness :
  exists s',
    reset_ ex_INIT ex_skipping_first 4 ex_three_lumis = Done tt s' /\
    streamReader_ s' = Some (handle "run000001_ls0003.dat" ex_dat3) /\
    unread_ (handle "run000001_ls0003.dat" ex_dat3) = [ex_event 5; ex_event 6] /\
    queue_ (fiterator_ s') = [] /\
    reads s' = [].
Proof.
  apply (skipFirstLumis_fast_forwards ex_INIT ex_skipping_first ex_three_lumis
           [ex_ls1; ex_ls2] ex_ls3 ex_dat3 4).
  - reflexivity.
  - reflexivity.
  - refine (bool_decide_unpack _ _). vm_compute. exact I.
  - reflexivity.
  - apply (bool_decide_unpack (map_Forall (fun _ f => code (dat_start f) = ex_INIT) _)).
    vm_compute. exact I.
  - vm_compute. reflexivity.
  - simpl. lia.
Defined.

(** The run is over and drained: end of stream, again and again. *)
Lemma end_of_stream_is_permanent_witness :
  streamReader_ ex_drained = None /\
  forall fuel',
    checkNextEvent ex_INIT ex_default (S fuel') ex_drained = Done false ex_drained /\
    prepareNextEvent ex_INIT ex_default (S fuel') ex_drained = Done None ex_drained.
Proof.
  apply (end_of_stream_is_permanent ex_INIT ex_default 1 ex_drained ex_drained).
  left. vm_compute. reflexivity.
Defined.

(** The file of lumisection 1 is missing: two passes later the file of
    lumisection 2 is open. *)
Lemma missing_data_file_is_skipped_witness :
  exists s'',
    (forall fuel,
       prepareNextEvent ex_INIT ex_default (S (S fuel)) ex_ls1_missing
         = prepareNextEvent ex_INIT ex_default fuel s'') /\
    streamReader_ s'' = Some (handle "run000001_ls0002.dat" ex_dat2) /\
    processedEventPerLs_ s'' = 0.
Proof.
  destruct (missing_data_file_is_skipped ex_INIT ex_default ex_ls1_missing ex_ls1 [ex_ls2]
              eq_refl eq_refl eq_refl ltac:(vm_compute; reflexivity))
    as (_ & _ & _ & _ & _ & H).
  apply (H ex_ls2 [] ex_dat2 eq_refl eq_refl); [vm_compute; reflexivity|reflexivity].
Defined.

(** A file that starts with an EVENT record cannot be opened. *)
Lemma wrong_first_record_is_fatal_witness :
  exists e s', openFile_ ex_INIT ex_default "bad.dat" ex_bad_disk = Thrown e s'.
Proof.
  apply (proj1 (wrong_first_record_is_fatal ex_INIT ex_default ex_bad_disk "bad.dat" ex_bad
                  ltac:(vm_compute; reflexivity))).
  simpl. discriminate.
Defined.

(** Lumisection 1 is open, the file of lumisection 2 is missing: after
    [openNextFile_] nothing is open and nothing is queued. *)
Lemma advance_is_not_atomic_witness :
  openNextFile_ ex_INIT ex_default ex_ls2_missing
    = Done false
        (mkSys (mkIter [] OPEN) None 2 (<["run000001_ls0001.dat" := ex_dat1]> ∅) []
           [ObsMissing "run000001_ls0002.dat"; ObsClose "run000001_ls0001.dat"]).
Proof.
  apply (advance_is_not_atomic ex_INIT ex_default ex_ls2_missing
           (handle "run000001_ls0001.dat" ex_dat1) ex_ls2 [] eq_refl eq_refl).
  vm_compute. reflexivity.
Defined.

(** Threshold 2, lumisection 2 queued.  At a count of 3 the file of
    lumisection 1 is closed with its three records unread and the file of
    lumisection 2 is opened; at a count of 2 the first record of
    lumisection 1 is read and lumisection 2 stays queued. *)
Lemma threshold_rotation_is_strict_witness :
  prepareNextEvent_body ex_INIT ex_min2 (ex_on_ls1 3)
    = Done None
        (mkSys (mkIter [] OPEN) (Some (handle "run000001_ls0002.dat" ex_dat2)) 0
           ex_disk []
           [ObsMerge (mkInit 1) false; ObsOpen "run000001_ls0002.dat";
            ObsClose "run000001_ls0001.dat"]) /\
  prepareNextEvent_body ex_INIT ex_min2 (ex_on_ls1 2)
    = Done (Some (Some (ex_event 1)))
        (mkSys (mkIter [ex_ls2] OPEN)
           (Some (mkSIF "run000001_ls0001.dat" (mkInit 1) [ex_event 2; ex_event 3]
                    (Some (ex_event 1)) false))
           2 ex_disk [] [ObsRead "run000001_ls0001.dat" (ex_event 1)]).
Proof.
  split.
  - pose proof (threshold_rotation_is_strict ex_INIT ex_min2 (ex_on_ls1 3)
                  (handle "run000001_ls0001.dat" ex_dat1) eq_refl eq_refl) as H.
    cbv zeta in H. destruct H as (_ & _ & _ & _ & H & _).
    specialize (H ltac:(vm_compute; reflexivity) ex_ls2 [] eq_refl).
    assert (Hl : disk (FileIterator.update_state (ex_on_ls1 3))
                   !! FileIterator.make_path_data ex_ls2 = Some ex_dat2)
      by (vm_compute; reflexivity).
    rewrite Hl in H. rewrite bool_decide_eq_true_2 in H by reflexivity.
    destruct H as (s' & Hb & Hr & Hi & Hp & Ht & Hd & Hf).
    rewrite Hb. f_equal. destruct s' as [it r pr d fu tr]. simpl in Hr, Hi, Hp, Ht, Hd, Hf.
    rewrite Hr, Hi, Hp, Ht, Hd, Hf. reflexivity.
  - pose proof (threshold_rotation_is_strict ex_INIT ex_min2 (ex_on_ls1 2)
                  (handle "run000001_ls0001.dat" ex_dat1) eq_refl eq_refl) as H.
    cbv zeta in H. destruct H as (_ & _ & _ & _ & _ & H).
    apply H. intros [_ Hlt]. vm_compute in Hlt. discriminate.
Defined.

(** [skip(-1)] on a live run does not return; once the run is over with
    the file of lumisection 1 open and nothing queued, it reads the three
    records, closes the file at its end and returns. *)
Lemma negative_skip_runs_to_end_of_stream_witness :
  INT_MIN <= -1 < 0 /\
  live (ex_on_ls1 0) /\
  (forall fuel s', skip ex_INIT ex_default fuel 10 (-1) (ex_on_ls1 0) ≠ Done tt s') /\
  steady ex_default ex_last_file /\
  skip ex_INIT ex_default 4 2 (-1) ex_last_file
    = Done tt
        (mkSys (mkIter [] EOR) None 0 ex_disk []
           [ObsClose "run000001_ls0001.dat"; ObsEOF "run000001_ls0001.dat";
            ObsRead "run000001_ls0001.dat" (ex_event 3);
            ObsRead "run000001_ls0001.dat" (ex_event 2);
            ObsRead "run000001_ls0001.dat" (ex_event 1)]).
Proof.
  assert (Hn : INT_MIN <= -1 < 0) by (unfold INT_MIN; lia).
  assert (Hl : live (ex_on_ls1 0)) by (split; [reflexivity|constructor]).
  assert (Hs : steady ex_default ex_last_file)
    by (split; [reflexivity|right; split; reflexivity]).
  split; [exact Hn|]. split; [exact Hl|]. split; [|split; [exact Hs|]].
  - intros fuel.
    apply (proj1 (proj1 (proj2 (negative_skip_runs_to_end_of_stream ex_INIT ex_default (-1)
                                  10 (ex_on_ls1 0) Hn)) Hl fuel)).
  - destruct (negative_skip_runs_to_end_of_stream ex_INIT ex_default (-1) 0 ex_last_file Hn)
      as (_ & _ & H).
    destruct (H (handle "run000001_ls0001.dat" ex_dat1) eq_refl Hs) as (_ & Hend & _).
    apply (Hend eq_refl eq_refl ltac:(vm_compute; discriminate) 0%nat).
Defined.

(** A negative skip is not an endless loop on a stream of more than
    [INT_MAX] events.  The run is live and [skip(-1)] is reading an open
    file that holds [INT_MAX] + 2 events; the pass that counts event
    [INT_MAX] + 1 increments a counter that holds [INT_MAX]: from there on
    the call neither waits nor reads, and the last record of the file is
    never read. *)
Lemma negative_skip_overflows_its_counter :
  live ex_overflowing /\
  streamReader_ ex_overflowing
    = Some (handle "run000001_ls0001.dat"
              (mkDat (mkInit 1) (ex_many ++ [ex_event 2; ex_event 3]))) /\
  Z.of_nat (length ex_many) = INT_MAX /\
  (forall pf extra : nat,
     skip ex_INIT ex_default (length ex_many + S extra) (S pf) (-1) ex_overflowing
       = Undefined).
Proof.
  split; [split; [reflexivity|constructor]|]. split; [reflexivity|]. split.
  { unfold ex_many. rewrite length_replicate. apply Z2Nat.id. unfold INT_MAX. lia. }
  intros pf extra.
  apply (skip_overflows ex_INIT ex_default pf (-1) ex_overflowing
           (handle "run000001_ls0001.dat"
              (mkDat (mkInit 1) (ex_many ++ [ex_event 2; ex_event 3])))
           ex_many (ex_event 2) [ex_event 3]).
  - lia.
  - reflexivity.
  - reflexivity.
  - split; [reflexivity|]. left. change (0 <= 1). lia.
  - unfold ex_many. rewrite kept_replicate by reflexivity.
    apply Z2Nat.id. unfold INT_MAX. lia.
  - reflexivity.
Qed.

(** ** More properties on the small run directory *)

(** [skip(3)] on the stream 1, 2, 5, 3, 9, 4. *)
Lemma skip_never_overflows_witness :
  0 <= 3 <= INT_MAX /\
  skip ex_INIT ex_filtering 4 1 3 ex_on_stream ≠ Undefined.
Proof.
  assert (Hn : 0 <= 3 <= INT_MAX) by (unfold INT_MAX; lia).
  split; [exact Hn|].
  exact (skip_never_overflows ex_INIT ex_filtering 3 4 1 ex_on_stream Hn).
Defined.


(** [skip(3)] over four records leaves the counter at 0 and delivers
    nothing. *)
Lemma skipped_events_are_not_counted_witness :
  exists s',
    final (skip ex_INIT ex_filtering 4 1 3 ex_on_stream) = Some s' /\
    (processedEventPerLs_ s' = processedEventPerLs_ ex_on_stream \/
     processedEventPerLs_ s' = 0) /\
    delivered s' = delivered ex_on_stream.
Proof.
  eexists. split; [vm_compute; reflexivity|].
  apply (skipped_events_are_not_counted ex_INIT ex_filtering 3 4 1 ex_on_stream).
  left. vm_compute. reflexivity.
Defined.

(** The missing file of lumisection 1 is looked for first, then the file
    of lumisection 2. *)
Lemma entries_are_taken_in_order_witness :
  exists s' k,
    final (checkNextEvent ex_INIT ex_default 3 ex_ls1_missing) = Some s' /\
    future s' = drop k (future ex_ls1_missing) /\
    rev (visited s') ++ paths (queue_ (fiterator_ s'))
      = (rev (visited ex_ls1_missing) ++ paths (queue_ (fiterator_ ex_ls1_missing)))
          ++ paths (concat (arriving <$> take k (future ex_ls1_missing))).
Proof.
  eexists.
  assert (H : final (checkNextEvent ex_INIT ex_default 3 ex_ls1_missing) = Some _)
    by (vm_compute; reflexivity).
  destruct (entries_are_taken_in_order ex_INIT ex_default 3 0 0 ex_ls1_missing _
              (or_introl H)) as (k & Hk).
  exists k. split; [exact H|exact Hk].
Defined.

(** Starting on three lumisections with [skipFirstLumis]: three files
    opened in turn, the third one open at the end. *)
Lemma one_file_open_at_a_time_witness :
  exists s',
    final (reset_ ex_INIT ex_skipping_first 4 ex_three_lumis) = Some s' /\
    tracked (trace s') = Some (currentFileName_ <$> streamReader_ s') /\
    currentFileName_ <$> streamReader_ s' = Some "run000001_ls0003.dat".
Proof.
  eexists.
  assert (H : final (reset_ ex_INIT ex_skipping_first 4 ex_three_lumis) = Some _)
    by (vm_compute; reflexivity).
  split; [exact H|]. split; [|reflexivity].
  apply (one_file_open_at_a_time ex_INIT ex_skipping_first 4 0 0 0 ex_three_lumis).
  right. split; [reflexivity|]. split; [reflexivity|]. exact H.
Defined.

(** Starting with [deleteDatFiles]: the one unlink follows the opening. *)
Lemma unlink_only_after_open_witness :
  exists s',
    final (reset_ ex_INIT ex_deleting 1 ex_one_lumi) = Some s' /\
    unlinks_ok ex_deleting (trace s') /\
    ObsUnlink "run000001_ls0001.dat" ∈ trace s'.
Proof.
  eexists.
  assert (H : final (reset_ ex_INIT ex_deleting 1 ex_one_lumi) = Some _)
    by (vm_compute; reflexivity).
  split; [exact H|]. split; [|by left].
  apply (unlink_only_after_open ex_INIT ex_deleting 1 0 0 0 ex_one_lumi).
  right. split; [reflexivity|exact H].
Defined.

(** The file of lumisection 1 is missing: the reader starts on
    lumisection 2 and leaves lumisection 3 queued. *)
Lemma reset_opens_first_file_on_disk_witness :
  exists s',
    reset_ ex_INIT ex_default 2 ex_late_start = Done tt s' /\
    streamReader_ s' = Some (handle "run000001_ls0002.dat" ex_dat2) /\
    queue_ (fiterator_ s') = [ex_ls3] /\
    processedEventPerLs_ s' = 0 /\
    reads s' = reads ex_late_start /\
    rev (visited s') = rev (visited ex_late_start) ++ paths [ex_ls1]
                         ++ ["run000001_ls0002.dat"].
Proof.
  apply (reset_opens_first_file_on_disk ex_INIT ex_default ex_late_start
           [ex_ls1] ex_ls2 [ex_ls3] ex_dat2 2).
  - reflexivity.
  - reflexivity.
  - constructor; [vm_compute; reflexivity|constructor].
  - vm_compute. reflexivity.
  - reflexivity.
  - reflexivity.
  - simpl. lia.
Defined.

(** An empty directory that stays empty. *)
Lemma reset_waits_for_a_file_witness :
  queue_ (fiterator_ ex_empty_start) = [] /\
  reset_ ex_INIT ex_default 1000 ex_empty_start = OutOfFuel.
Proof.
  split; [reflexivity|].
  apply (reset_waits_for_a_file ex_INIT ex_default ex_empty_start).
  - reflexivity.
  - left. reflexivity.
Defined.

(** A live run with nothing to read. *)
Lemma prepareNextEvent_waits_witness :
  prepareNextEvent_body ex_INIT ex_default ex_nothing_yet
    = Done None (emit ObsDelay ex_nothing_yet) /\
  prepareNextEvent ex_INIT ex_default 1000 ex_nothing_yet = OutOfFuel.
Proof.
  destruct (prepareNextEvent_waits ex_INIT ex_default ex_nothing_yet
              eq_refl eq_refl eq_refl eq_refl ltac:(discriminate)) as [Hb Hw].
  split; [exact Hb|]. exact (proj1 (Hw 1000%nat)).
Defined.

(** The three events of the last file, then the end of the stream. *)
Lemma run_over_drains_open_file_witness :
  exists s1 s2,
    pump ex_INIT ex_default 3 1 ex_last_file = Done true s1 /\
    delivered s1 = [ex_event 3; ex_event 2; ex_event 1] /\
    checkNextEvent ex_INIT ex_default 2 s1 = Done false s2 /\
    streamReader_ s2 = None.
Proof.
  destruct (run_over_drains_open_file ex_INIT ex_default ex_last_file
              (handle "run000001_ls0001.dat" ex_dat1)
              eq_refl eq_refl eq_refl eq_refl eq_refl)
    as (s1 & s2 & Hp & Hd & _ & Hc & Hr & _).
  exists s1, s2. split; [exact Hp|]. split; [exact Hd|]. split; [exact Hc|exact Hr].
Defined.

(** Two events of lumisection 1 counted, threshold 1, lumisection 2
    queued: the third event of lumisection 1 is given up for event 4. *)
Lemma rotation_drops_unread_events_witness :
  exists s',
    checkNextEvent ex_INIT ex_default 2 (ex_on_ls1 2) = Done true s' /\
    reads s' = [ex_event 4] /\
    delivered s' = [ex_event 4] /\
    processedEventPerLs_ s' = 1.
Proof.
  destruct (rotation_drops_unread_events ex_INIT ex_default (ex_on_ls1 2)
              (handle "run000001_ls0001.dat" ex_dat1) ex_ls2 [] ex_dat2 (ex_event 4) []
              eq_refl eq_refl eq_refl ltac:(simpl; lia) eq_refl
              ltac:(vm_compute; reflexivity) eq_refl eq_refl)
    as (s' & Hc & Hrd & Hd & _ & _ & Hp).
  exists s'. split; [exact Hc|]. split; [exact Hrd|]. split; [exact Hd|exact Hp].
Defined.

(** The run is over while lumisection 1 is being read. *)
Lemma endOfRunKills_cuts_open_file_witness :
  checkNextEvent ex_INIT ex_killing 1 ex_run_over_reading
    = Done false
        (set_streamReader None (emit (ObsClose "run000001_ls0001.dat") ex_run_over_reading)).
Proof.
  apply (endOfRunKills_cuts_open_file ex_INIT ex_killing ex_run_over_reading
           (handle "run000001_ls0001.dat" ex_dat1) 0 eq_refl ltac:(discriminate) eq_refl).
Defined.

(** ** Properties of Z2muAnalyzer *)

Module Z2muAnalyzerFacts.

Import Z2muAnalyzer.

Section Selection.

Context {HepLorentzVector : Type}.

Abbreviation Particle := (GenParticle HepLorentzVector).

Lemma abs_13 (x : Z) :
  x ≠ INT_MIN ->
  exists a, abs x = Some a /\
            (a = 13 <-> x = 13 \/ x = -13).
Proof.
  intros Hx. unfold abs. rewrite bool_decide_eq_false_2 by done.
  eexists. split; [reflexivity|]. lia.
Qed.

Lemma selected_iff (p : Particle) a :
  abs (pdg_id p) = Some a ->
  bool_decide (a = 13) && bool_decide (status p = 1) = is_stable_muon p.
Proof.
  unfold abs, is_stable_muon. case_bool_decide as Hmin; [discriminate|].
  intros [= <-]. f_equal.
  destruct (decide (pdg_id p = 13)) as [H13|H13];
    destruct (decide (pdg_id p = -13)) as [Hm13|Hm13].
  - lia.
  - rewrite !bool_decide_eq_true_2 by lia. reflexivity.
  - rewrite (bool_decide_eq_true_2 (Z.abs _ = 13)) by lia.
    rewrite (bool_decide_eq_false_2 (pdg_id p = 13)) by lia.
    by rewrite bool_decide_eq_true_2.
  - rewrite !bool_decide_eq_false_2 by lia. reflexivity.
Qed.

Lemma stable_muons_filter (evt : list Particle) : forall muons,
  codes_in_range evt ->
  stable_muons evt muons = Some (muons ++ filter is_stable_muon evt).
Proof.
  induction evt as [|p evt IH]; intros muons Hr; simpl.
  - by rewrite app_nil_r.
  - apply Forall_cons in Hr as [Hp Hr].
    destruct (abs_13 _ Hp) as (a & Ha & _). rewrite Ha, (selected_iff _ _ Ha).
    rewrite filter_cons. destruct (is_stable_muon p) eqn:Hs; simpl.
    + rewrite (IH _ Hr). by rewrite <- app_assoc.
    + by apply IH.
Qed.

Lemma stable_muons_out_of_range (evt : list Particle) : forall muons,
  ¬ codes_in_range evt -> stable_muons evt muons = None.
Proof.
  induction evt as [|p evt IH]; intros muons Hr; simpl.
  - exfalso. apply Hr. constructor.
  - unfold abs at 1. case_bool_decide as Hp; [reflexivity|].
    assert (Hr' : ¬ codes_in_range evt).
    { intros H. apply Hr. by constructor. }
    destruct (_ && _); by apply IH.
Qed.

(** X14: the muons [analyze] keeps are the particles of the event with
    code 13 or -13 and status 1, in the order of the event, each as often
    as it occurs; the selection is defined exactly when no particle
    carries the least [int] as its code, on which [abs] is undefined. *)
Theorem stable_muons_selects (evt : list Particle) :
  (is_Some (stable_muons evt []) <-> codes_in_range evt) /\
  (forall muons,
     stable_muons evt [] = Some muons ->
     muons = filter is_stable_muon evt /\
     muons `sublist_of` evt /\
     forall p, p ∈ muons <->
               p ∈ evt /\ (pdg_id p = 13 \/ pdg_id p = -13) /\ status p = 1).
Proof.
  split.
  - split.
    + intros [muons H]. destruct (decide (codes_in_range evt)) as [Hr|Hr]; [exact Hr|].
      by rewrite (stable_muons_out_of_range _ _ Hr) in H.
    + intros Hr. rewrite (stable_muons_filter _ _ Hr). eauto.
  - intros muons H.
    assert (Hr : codes_in_range evt).
    { destruct (decide (codes_in_range evt)) as [Hr|Hr]; [exact Hr|].
      by rewrite (stable_muons_out_of_range _ _ Hr) in H. }
    rewrite (stable_muons_filter _ _ Hr) in H. injection H as <-. simpl.
    split; [reflexivity|]. split; [apply sublist_filter|].
    intros p. rewrite list_elem_of_filter. unfold is_stable_muon.
    rewrite Is_true_true, andb_true_iff, orb_true_iff, !bool_decide_eq_true. tauto.
Qed.

End Selection.

Section Filling.

Context {HepLorentzVector double : Type}.
Variable zero : double.
Variable plus : HepLorentzVector -> HepLorentzVector -> HepLorentzVector.
Variable m2 : HepLorentzVector -> double.
Variable sqrt : double -> double.

Abbreviation Particle := (GenParticle HepLorentzVector).

Abbreviation entry := (Z2muAnalyzer.entry zero plus m2 sqrt).

Lemma analyze_fills (evt : list Particle) a :
  codes_in_range evt ->
  analyze zero plus m2 sqrt evt a =
    Some (mkAnalyzer (entry evt :: invmass_histo a)
            (PrintMass (entry evt) :: PrintSize (length (filter is_stable_muon evt))
               :: cout a)).
Proof. intros Hr. unfold analyze. by rewrite (stable_muons_filter _ _ Hr). Qed.

(** X15: a job fills the histogram once per event, in the order of the
    events, also for the events without two stable muons, which are
    entered at [0.0]; the entry of an event depends on its first two stable
    muons only. *)
Theorem job_fills_once_per_event (events : list (list Particle)) a :
  Forall codes_in_range events ->
  (exists a',
     job zero plus m2 sqrt events a = Some a' /\
     invmass_histo a' = rev (entry <$> events) ++ invmass_histo a /\
     length (invmass_histo a') = (length events + length (invmass_histo a))%nat) /\
  (forall evt,
     (length (filter is_stable_muon evt) < 2)%nat -> entry evt = zero) /\
  (forall evt evt',
     take 2 (filter is_stable_muon evt) = take 2 (filter is_stable_muon evt') ->
     entry evt = entry evt').
Proof.
  intros Hr. split; [|split].
  - revert a. induction events as [|evt events IH]; intros a.
    + exists a. by repeat split.
    + apply Forall_cons in Hr as [He Hr]. simpl. rewrite (analyze_fills _ _ He).
      destruct (IH Hr (mkAnalyzer (entry evt :: invmass_histo a)
                         (PrintMass (entry evt)
                            :: PrintSize (length (filter is_stable_muon evt)) :: cout a)))
        as (a' & Hj & Hh & Hl).
      exists a'. split; [exact Hj|]. simpl in *. split.
      * rewrite Hh. by rewrite <- app_assoc.
      * rewrite Hl. lia.
  - intros evt Hlen. unfold Z2muAnalyzer.entry.
    destruct (filter is_stable_muon evt) as [|m0 [|m1 rest]]; simpl in *; try done. lia.
  - intros evt evt' H. unfold Z2muAnalyzer.entry.
    destruct (filter is_stable_muon evt) as [|m0 [|m1 rest]];
      destruct (filter is_stable_muon evt') as [|m0' [|m1' rest']];
      simpl in *; try done. by injection H as -> ->.
Qed.

End Filling.

(** The example event has three stable muons; the unstable muon, the Z and
    the photon are left out. *)
Lemma stable_muons_selects_witness :
  stable_muons ex_Z_event []
    = Some [mkParticle 13 1 40; mkParticle (-13) 1 50; mkParticle 13 1 7] /\
  [mkParticle 13 1 40; mkParticle (-13) 1 50; mkParticle 13 1 7]
    = filter is_stable_muon ex_Z_event.
Proof.
  assert (H : stable_muons ex_Z_event []
              = Some [mkParticle 13 1 40; mkParticle (-13) 1 50; mkParticle 13 1 7])
    by (vm_compute; reflexivity).
  split; [exact H|].
  exact (proj1 (proj2 (stable_muons_selects ex_Z_event) _ H)).
Defined.

(** Two events, the second without muons: two entries, the second 0. *)
Lemma job_fills_once_per_event_witness :
  exists a',
    ex_job [ex_Z_event; [mkParticle 22 1 5]] (mkAnalyzer [] []) = Some a' /\
    invmass_histo a' = [0; 90].
Proof.
  assert (Hr : Forall codes_in_range [ex_Z_event; [mkParticle 22 1 (5 : Z)]]).
  { refine (bool_decide_unpack _ _). vm_compute. exact I. }
  destruct (proj1 (job_fills_once_per_event 0 Z.add (fun v : Z => v) (fun d : Z => d)
                     [ex_Z_event; [mkParticle 22 1 5]] (mkAnalyzer [] []) Hr))
    as (a' & Hj & Hh & _).
  exists a'. split; [exact Hj|]. rewrite Hh. vm_compute. reflexivity.
Defined.

End Z2muAnalyzerFacts.
